(** * StopOdds: the database schema, the submission form and the submit route

    A shallow embedding of the parts of the application that decide the
    properties of the specification:

    - [infra/supabase.sql]: the three tables with their constraints and the
      PL/pgSQL functions [hash_user_agent], [calculate_rate_per_100],
      [check_minimum_sample], [insert_sample_data] and the view
      [public_stats];
    - [lib/formConfig.ts]: the form fields and their grouping into steps;
    - the multi-step [SubmissionForm] component: step validation and
      navigation;
    - the [POST] handler of the frontend submit route.

    Modelling conventions.
    - SQL [INTEGER] values are [Z]; where PL/pgSQL stores an aggregate in an
      [INTEGER] variable the range check of the assignment is written out.
      [bigint] aggregates ([COUNT], [SUM]) are unbounded [Z].
    - SQL [FLOAT] values are exact rationals [Q]: the binary rounding of
      double precision is outside the model.
    - A nullable SQL value is an [option]; [None] is [NULL].
    - A failing statement returns [None] and leaves the table as it was. *)

From Stdlib Require Import ZArith QArith Qround List String Ascii Bool Lia.
From stdpp Require Import base option list strings gmap pretty finite.

Set Warnings "-register-all".

Local Open Scope string_scope.
Local Open Scope Z_scope.

(** ** SQL values with three-valued logic *)

Module Sql.

(** The result of a boolean SQL expression: [None] is unknown. *)
Definition tri := option bool.

Definition ge (a b : option Z) : tri :=
  match a, b with
  | Some x, Some y => Some (y <=? x)
  | _, _ => None
  end.

Definition le (a b : option Z) : tri :=
  match a, b with
  | Some x, Some y => Some (x <=? y)
  | _, _ => None
  end.

Definition and (p q : tri) : tri :=
  match p, q with
  | Some false, _ | _, Some false => Some false
  | Some true, Some true => Some true
  | _, _ => None
  end.

(** A [CHECK] constraint is violated only when its expression is false;
    an unknown result passes. *)
Definition check (p : tri) : bool :=
  match p with
  | Some false => false
  | _ => true
  end.

(** [NOT NULL]. *)
Definition not_null {A} (v : option A) : bool :=
  match v with Some _ => true | None => false end.

(** The range of a four-byte [INTEGER]. *)
Definition int4_min : Z := - 2147483648.
Definition int4_max : Z := 2147483647.

(** Assigning a [bigint] to an [INTEGER] variable raises
    "integer out of range" outside the range. *)
Definition to_int4 (z : Z) : option Z :=
  if (int4_min <=? z) && (z <=? int4_max) then Some z else None.

End Sql.

(** ** The enumerated types of the schema *)

Module Enums.

Inductive age_bracket_enum := Age18_24 | Age25_34 | Age35_44 | Age45plus.
Inductive gender_enum := Male | Female | Nonbinary | GenderPreferNot.
Inductive ethnicity_enum :=
| AngloAustralian | Indigenous | SouthAsian | EastAsian | SoutheastAsian
| MiddleEastern | African | European | LatinAmerican | EthnicityOther
| EthnicityPreferNot.
Inductive skin_tone_enum := Light | Medium | Dark | SkinPreferNot.
Inductive height_bracket_enum := HUnder160 | H160_175 | H175_190 | HOver190.
Inductive model_type_enum := poisson | negbin | lightgbm.

(** The labels of each type, in declaration order: a text value is cast
    to the type by looking its label up, and the cast fails on any
    other text. *)
Definition age_bracket_labels : list (string * age_bracket_enum) :=
  [("18-24", Age18_24); ("25-34", Age25_34); ("35-44", Age35_44);
   ("45+", Age45plus)].
Definition gender_labels : list (string * gender_enum) :=
  [("Male", Male); ("Female", Female); ("Nonbinary", Nonbinary);
   ("PreferNot", GenderPreferNot)].
Definition ethnicity_labels : list (string * ethnicity_enum) :=
  [("Anglo Australian", AngloAustralian); ("Indigenous", Indigenous);
   ("South Asian", SouthAsian); ("East Asian", EastAsian);
   ("Southeast Asian", SoutheastAsian); ("Middle Eastern", MiddleEastern);
   ("African", African); ("European", European);
   ("Latin American", LatinAmerican); ("Other", EthnicityOther);
   ("PreferNot", EthnicityPreferNot)].
Definition skin_tone_labels : list (string * skin_tone_enum) :=
  [("Light", Light); ("Medium", Medium); ("Dark", Dark);
   ("PreferNot", SkinPreferNot)].
Definition height_bracket_labels : list (string * height_bracket_enum) :=
  [("<160", HUnder160); ("160-175", H160_175); ("175-190", H175_190);
   (">190", HOver190)].

Fixpoint cast {A} (labels : list (string * A)) (s : string) : option A :=
  match labels with
  | [] => None
  | (l, v) :: rest => if String.eqb l s then Some v else cast rest s
  end.

(** Casting a nullable text: [NULL] stays [NULL]; the outer [option] is
    the success of the cast. *)
Definition cast_nullable {A} (labels : list (string * A))
    (v : option string) : option (option A) :=
  match v with
  | None => Some None
  | Some s =>
      match cast labels s with
      | Some e => Some (Some e)
      | None => None
      end
  end.

End Enums.

(** ** The tables and functions of [infra/supabase.sql] *)

Module Schema.
Import Enums.

(** A [UUID] is a 128-bit number, a [TIMESTAMPTZ] a count of microseconds. *)
Definition uuid := Z.
Definition timestamptz := Z.

(** *** Table [submissions] *)

Record submission := {
  id : uuid;
  created_at : option timestamptz;
  age_bracket : option age_bracket_enum;
  gender : option gender_enum;
  ethnicity : option ethnicity_enum;
  skin_tone : option skin_tone_enum;
  height_bracket : option height_bracket_enum;
  visible_disability : option bool;
  concession : option bool;
  trips : Z;
  stops : Z;
  user_agent_hash : option string
}.

(** The values of one row of an [INSERT], after the column defaults
    ([uuid_generate_v4()], [NOW()]) have been filled in: every column may
    still be [NULL], and the enumerated columns arrive as text. *)
Record submission_values := {
  v_id : option uuid;
  v_created_at : option timestamptz;
  v_age_bracket : option string;
  v_gender : option string;
  v_ethnicity : option string;
  v_skin_tone : option string;
  v_height_bracket : option string;
  v_visible_disability : option bool;
  v_concession : option bool;
  v_trips : option Z;
  v_stops : option Z;
  v_user_agent_hash : option string
}.

(** The column and table constraints on [trips] and [stops]:
    [trips INTEGER NOT NULL CHECK (trips >= 1 AND trips <= 200)],
    [stops INTEGER NOT NULL CHECK (stops >= 0)] and
    [CONSTRAINT stops_not_exceed_trips CHECK (stops <= trips)]. *)
Definition trips_stops_constraints (t s : option Z) : bool :=
  Sql.not_null t
  && Sql.check (Sql.and (Sql.ge t (Some 1)) (Sql.le t (Some 200)))
  && Sql.not_null s
  && Sql.check (Sql.ge s (Some 0))
  && Sql.check (Sql.le s t).

(** [INSERT INTO submissions]: the primary key is present and new, the
    enumerated columns cast, and the constraints on [trips] and [stops]
    hold; the row is then appended. *)
Definition insert_submission (tbl : list submission)
    (v : submission_values) : option (list submission) :=
  i ← v_id v;
  if bool_decide (i ∈ id <$> tbl) then None else
  a ← cast_nullable age_bracket_labels (v_age_bracket v);
  g ← cast_nullable gender_labels (v_gender v);
  e ← cast_nullable ethnicity_labels (v_ethnicity v);
  k ← cast_nullable skin_tone_labels (v_skin_tone v);
  h ← cast_nullable height_bracket_labels (v_height_bracket v);
  if negb (trips_stops_constraints (v_trips v) (v_stops v)) then None else
  t ← v_trips v;
  s ← v_stops v;
  Some (tbl ++ [{| id := i; created_at := v_created_at v;
                   age_bracket := a; gender := g; ethnicity := e;
                   skin_tone := k; height_bracket := h;
                   visible_disability := v_visible_disability v;
                   concession := v_concession v;
                   trips := t; stops := s;
                   user_agent_hash := v_user_agent_hash v |}])%list.

(** The statement as the database runs it: the table after it, and
    whether the row was accepted. A failing insert changes nothing. *)
Definition exec_insert_submission (tbl : list submission)
    (v : submission_values) : list submission * bool :=
  match insert_submission tbl v with
  | Some tbl' => (tbl', true)
  | None => (tbl, false)
  end.

(** The tables the database can hold: rows come in through [INSERT]
    only, and leave through [DELETE] (the retention job). *)
Inductive submissions_reachable : list submission → Prop :=
| sr_empty : submissions_reachable []
| sr_insert tbl v :
    submissions_reachable tbl →
    submissions_reachable (exec_insert_submission tbl v).1
| sr_delete tbl (keep : submission → bool) :
    submissions_reachable tbl →
    submissions_reachable (List.filter keep tbl).

(** *** Aggregates of SQL *)

(** [SUM] of an integer column: [NULL] over no rows. *)
Definition sql_sum (l : list Z) : option Z :=
  match l with
  | [] => None
  | _ => Some (fold_right Z.add 0 l)
  end.

(** [COALESCE(x, d)]. *)
Definition coalesce {A} (x : option A) (d : A) : A :=
  match x with Some v => v | None => d end.

(** [COUNT( * )]. *)
Definition sql_count {A} (l : list A) : Z := Z.of_nat (length l).

(** [AVG] of a float expression: the [NULL]s are skipped, and the result
    is [NULL] when nothing is left. *)
Definition sql_avg (l : list (option Q)) : option Q :=
  match omap (λ x, x) l with
  | [] => None
  | vs => Some (fold_right Qplus 0%Q vs / inject_Z (sql_count vs))%Q
  end.

(** [MIN] and [MAX] of a nullable column. *)
Definition sql_min (l : list (option Z)) : option Z :=
  match omap (λ x, x) l with
  | [] => None
  | v :: vs => Some (fold_right Z.min v vs)
  end.
Definition sql_max (l : list (option Z)) : option Z :=
  match omap (λ x, x) l with
  | [] => None
  | v :: vs => Some (fold_right Z.max v vs)
  end.

(** *** Function [calculate_rate_per_100]

    [IF trips = 0 THEN RETURN 0; END IF;
     RETURN (stops::FLOAT / trips::FLOAT) * 100;]
    The function is not declared [STRICT]: with [trips] [NULL] the
    condition is unknown, the branch is not taken, and the result of the
    arithmetic is [NULL]. *)
Definition calculate_rate_per_100 (stops trips : option Z) : option Q :=
  match trips with
  | Some 0 => Some 0%Q
  | _ =>
      s ← stops; t ← trips;
      Some ((inject_Z s / inject_Z t) * 100)%Q
  end.

(** *** Function [check_minimum_sample] *)

Record minimum_sample := {
  total_submissions : Z;
  total_stops : Z;
  meets_minimum : bool
}.

Definition min_submissions : Z := 500.
Definition min_stops : Z := 100.

(** [SELECT COUNT( * ), COALESCE(SUM(stops), 0) INTO sub_count, stop_count]
    stores two [bigint]s in [INTEGER] variables; the returned row
    compares them with the two thresholds. *)
Definition check_minimum_sample (tbl : list submission)
    : option minimum_sample :=
  sub_count ← Sql.to_int4 (sql_count tbl);
  stop_count ← Sql.to_int4 (coalesce (sql_sum (stops <$> tbl)) 0);
  Some {| total_submissions := sub_count;
          total_stops := stop_count;
          meets_minimum :=
            (min_submissions <=? sub_count) && (min_stops <=? stop_count) |}.

(** *** View [public_stats] *)

Record public_stats_row := {
  ps_total_submissions : Z;
  ps_total_trips : option Z;
  ps_total_stops : option Z;
  ps_avg_rate_per_100 : option Q;
  ps_first_submission : option timestamptz;
  ps_last_submission : option timestamptz
}.

Definition public_stats (tbl : list submission) : public_stats_row :=
  {| ps_total_submissions := sql_count tbl;
     ps_total_trips := sql_sum (trips <$> tbl);
     ps_total_stops := sql_sum (stops <$> tbl);
     ps_avg_rate_per_100 :=
       sql_avg ((λ r, calculate_rate_per_100 (Some (stops r))
                                             (Some (trips r))) <$> tbl);
     ps_first_submission := sql_min (created_at <$> tbl);
     ps_last_submission := sql_max (created_at <$> tbl) |}.

(** *** Function [insert_sample_data]

    One [INSERT] of four rows; [id] and [created_at] take their defaults,
    here the four generated identifiers and the time of the statement.
    The statement is atomic: it inserts the four rows or none. *)
Definition sample_values (i : uuid) (now : timestamptz)
    (age gen eth skin height : string) (dis conc : bool) (t s : Z)
    : submission_values :=
  {| v_id := Some i; v_created_at := Some now;
     v_age_bracket := Some age; v_gender := Some gen;
     v_ethnicity := Some eth; v_skin_tone := Some skin;
     v_height_bracket := Some height;
     v_visible_disability := Some dis; v_concession := Some conc;
     v_trips := Some t; v_stops := Some s;
     v_user_agent_hash := None |}.

Definition insert_sample_data (i1 i2 i3 i4 : uuid) (now : timestamptz)
    (tbl : list submission) : option (list submission) :=
  t1 ← insert_submission tbl
    (sample_values i1 now "25-34" "Male" "Anglo Australian" "Light"
                   "175-190" false false 20 1);
  t2 ← insert_submission t1
    (sample_values i2 now "35-44" "Female" "South Asian" "Medium"
                   "160-175" false true 25 2);
  t3 ← insert_submission t2
    (sample_values i3 now "18-24" "Nonbinary" "East Asian" "Light"
                   "<160" false true 15 0);
  insert_submission t3
    (sample_values i4 now "45+" "Male" "Indigenous" "Dark"
                   ">190" true true 30 3).

(** *** Table [model_runs] *)

(** A [JSONB] document, kept as its text. *)
Definition jsonb := string.

Record model_run := {
  run_id : uuid;
  mr_created_at : option timestamptz;
  model_type : model_type_enum;
  train_rows : Z;
  metrics : option jsonb;
  coeffs : option jsonb;
  public_snapshot : option bool;
  notes : option string
}.

Definition model_type_labels : list (string * model_type_enum) :=
  [("poisson", poisson); ("negbin", negbin); ("lightgbm", lightgbm)].

Record model_run_values := {
  v_run_id : option uuid;
  v_mr_created_at : option timestamptz;
  v_model_type : option string;
  v_train_rows : option Z;
  v_metrics : option jsonb;
  v_coeffs : option jsonb;
  v_public_snapshot : option bool;
  v_notes : option string
}.

(** [INSERT INTO model_runs]: [run_id] is the primary key, [model_type]
    and [train_rows] are [NOT NULL]. *)
Definition insert_model_run (tbl : list model_run)
    (v : model_run_values) : option (list model_run) :=
  i ← v_run_id v;
  if bool_decide (i ∈ run_id <$> tbl) then None else
  m ← v_model_type v ≫= cast model_type_labels;
  n ← v_train_rows v ≫= Sql.to_int4;
  Some (tbl ++ [{| run_id := i; mr_created_at := v_mr_created_at v;
                   model_type := m; train_rows := n;
                   metrics := v_metrics v; coeffs := v_coeffs v;
                   public_snapshot := v_public_snapshot v;
                   notes := v_notes v |}])%list.

(** *** Table [aggregates_public] *)

Record aggregate := {
  agg_id : uuid;
  group_key : string;
  n_people : Z;
  n_trips : Z;
  n_stops : Z;
  rate_per_100 : Q;
  irr_vs_ref : option Q;
  confidence_interval_lower : option Q;
  confidence_interval_upper : option Q;
  model_run_id : option uuid
}.

Record aggregate_values := {
  v_agg_id : option uuid;
  v_group_key : option string;
  v_n_people : option Z;
  v_n_trips : option Z;
  v_n_stops : option Z;
  v_rate_per_100 : option Q;
  v_irr_vs_ref : option Q;
  v_confidence_interval_lower : option Q;
  v_confidence_interval_upper : option Q;
  v_model_run_id : option uuid
}.

(** [model_run_id UUID REFERENCES model_runs(run_id)]: [NULL], or the key
    of an existing run. *)
Definition references_model_run (runs : list model_run)
    (r : option uuid) : bool :=
  match r with
  | None => true
  | Some i => bool_decide (i ∈ run_id <$> runs)
  end.

(** [INSERT INTO aggregates_public]; the k-anonymity constraint is
    [n_people INTEGER NOT NULL CHECK (n_people >= 50)]. *)
Definition insert_aggregate (runs : list model_run) (tbl : list aggregate)
    (v : aggregate_values) : option (list aggregate) :=
  i ← v_agg_id v;
  if bool_decide (i ∈ agg_id <$> tbl) then None else
  k ← v_group_key v;
  p ← v_n_people v ≫= Sql.to_int4;
  if negb (Sql.check (Sql.ge (Some p) (Some 50))) then None else
  t ← v_n_trips v ≫= Sql.to_int4;
  s ← v_n_stops v ≫= Sql.to_int4;
  r ← v_rate_per_100 v;
  if negb (references_model_run runs (v_model_run_id v)) then None else
  Some (tbl ++ [{| agg_id := i; group_key := k; n_people := p;
                   n_trips := t; n_stops := s; rate_per_100 := r;
                   irr_vs_ref := v_irr_vs_ref v;
                   confidence_interval_lower :=
                     v_confidence_interval_lower v;
                   confidence_interval_upper :=
                     v_confidence_interval_upper v;
                   model_run_id := v_model_run_id v |}])%list.

Definition exec_insert_aggregate (runs : list model_run)
    (tbl : list aggregate) (v : aggregate_values)
    : list aggregate * bool :=
  match insert_aggregate runs tbl v with
  | Some tbl' => (tbl', true)
  | None => (tbl, false)
  end.

(** The contents the table can have: every aggregation cycle deletes
    rows and inserts the new ones, against whatever runs exist then. *)
Inductive aggregates_reachable : list aggregate → Prop :=
| ar_empty : aggregates_reachable []
| ar_insert runs tbl v :
    aggregates_reachable tbl →
    aggregates_reachable (exec_insert_aggregate runs tbl v).1
| ar_delete tbl (keep : aggregate → bool) :
    aggregates_reachable tbl →
    aggregates_reachable (List.filter keep tbl).

(** The policy [FOR SELECT USING (true)] lets a public query read every
    row; a query returns the rows its condition selects. *)
Definition select_aggregates (cond : aggregate → bool)
    (tbl : list aggregate) : list aggregate :=
  List.filter cond tbl.

(** *** Function [hash_user_agent] *)

Record date := { year : N; month : N; day : N }.


Definition digit (n : N) : ascii := ascii_of_N (48 + n mod 10).

Definition two_digits (n : N) : string :=
  String (digit (n / 10)) (String (digit n) "").

Definition four_digits (n : N) : string :=
  String (digit (n / 1000)) (String (digit (n / 100)) (two_digits n)).

(** [CURRENT_DATE::TEXT] in the ISO date style, [YYYY-MM-DD]. *)
Definition date_text (d : date) : string :=
  four_digits (year d) ++ "-" ++ two_digits (month d)
    ++ "-" ++ two_digits (day d).

Definition salt : string := "stopodds_salt".

(** [user_agent || CURRENT_DATE::TEXT || 'stopodds_salt'], the input of
    the digest. *)
Definition salted_input (user_agent : string) (today : date) : string :=
  (user_agent ++ date_text today) ++ salt.

Definition hex_digit (n : N) : ascii :=
  if (n <? 10)%N then ascii_of_N (48 + n) else ascii_of_N (87 + n).

(** [encode(bytes, 'hex')]: two lower-case digits per byte. *)
Fixpoint encode_hex (bytes : list Byte.byte) : string :=
  match bytes with
  | [] => ""
  | b :: rest =>
      String (hex_digit (Byte.to_N b / 16))
        (String (hex_digit (Byte.to_N b mod 16)) (encode_hex rest))
  end.

Section HashUserAgent.

(** [digest(data, 'sha256')] of pgcrypto: from the bytes of a text to
    the bytes of its digest. *)
Variable sha256 : string → list Byte.byte.


End HashUserAgent.

End Schema.

(** ** The model registry *)

Module ModelRegistry.
Import Schema.

(** Modelled from the spec: the registry operations live in the backend
    API, which is not among the sources; only the table [model_runs] is.
    The spec describes an append-only store of ModelRun records plus a
    single "current published" pointer: [publish(run_id)] atomically
    swaps the pointer and neither deletes nor mutates a run. The records
    are the rows of [model_runs], added with its [INSERT]. *)
Record registry := {
  runs : list model_run;
  current : option uuid
}.

(** Modelled from the spec: the registry before any run is stored. *)
Definition empty : registry := {| runs := []; current := None |}.

(** Modelled from the spec: a new run is appended; the pointer stays. *)
Definition create (reg : registry) (v : model_run_values)
    : option registry :=
  tbl ← insert_model_run (runs reg) v;
  Some {| runs := tbl; current := current reg |}.

(** Modelled from the spec: [publish] moves the pointer to a stored run
    and touches nothing else; an unknown [run_id] is refused. *)
Definition publish (reg : registry) (r : uuid) : option registry :=
  if bool_decide (r ∈ run_id <$> runs reg)
  then Some {| runs := runs reg; current := Some r |}
  else None.


(** Modelled from the spec: the two operations of the registry. *)
Inductive op := Create (v : model_run_values) | Publish (r : uuid).

(** The values of a run with the given key, for examples. *)
Definition plain_run (i : uuid) : model_run_values :=
  {| v_run_id := Some i; v_mr_created_at := None;
     v_model_type := Some "poisson"; v_train_rows := Some 500;
     v_metrics := None; v_coeffs := None;
     v_public_snapshot := Some false; v_notes := None |}.

(** Modelled from the spec: one operation; a refused operation leaves the
    registry as it was. *)
Definition exec (reg : registry) (o : op) : registry :=
  match o with
  | Create v => default reg (create reg v)
  | Publish r => default reg (publish reg r)
  end.


End ModelRegistry.

(** ** [lib/formConfig.ts] *)

Module FormConfig.

Inductive field_type := select | number | boolean.

Global Instance field_type_eq_dec : EqDecision field_type.
Proof. solve_decision. Defined.

(** [interface FormField]; an absent [required] is falsy, absent [min],
    [max] are [None], absent [options] the empty list. *)
Record FormField := {
  id : string;
  label : string;
  type : field_type;
  options : list (string * string);
  required : bool;
  min : option Z;
  max : option Z;
  description : string
}.

Definition formFields : list FormField :=
  [ {| id := "trips"; label := "Total trips in last 30 days";
       type := number; options := []; required := true;
       min := Some 1; max := Some 200;
       description := "How many times did you use public transport in Melbourne in the last 30 days?" |};
    {| id := "stops"; label := "Times stopped by fare inspectors";
       type := number; options := []; required := true;
       min := Some 0; max := None;
       description := "How many times were you checked by fare inspectors in the last 30 days?" |};
    {| id := "age_bracket"; label := "Age bracket"; type := select;
       options := [("18-24", "18-24 years"); ("25-34", "25-34 years");
                   ("35-44", "35-44 years"); ("45+", "45+ years")];
       required := false; min := None; max := None;
       description := "Your age group (optional)" |};
    {| id := "gender"; label := "Gender"; type := select;
       options := [("Male", "Male"); ("Female", "Female");
                   ("Nonbinary", "Non-binary");
                   ("PreferNot", "Prefer not to say")];
       required := false; min := None; max := None;
       description := "Your gender identity (optional)" |};
    {| id := "ethnicity"; label := "Ethnicity"; type := select;
       options := [("Anglo Australian", "Anglo Australian");
                   ("Indigenous", "Indigenous Australian");
                   ("South Asian", "South Asian");
                   ("East Asian", "East Asian");
                   ("Southeast Asian", "Southeast Asian");
                   ("Middle Eastern", "Middle Eastern");
                   ("African", "African"); ("European", "European");
                   ("Latin American", "Latin American");
                   ("Other", "Other");
                   ("PreferNot", "Prefer not to say")];
       required := false; min := None; max := None;
       description := "Your ethnic background (optional)" |};
    {| id := "skin_tone"; label := "Skin tone"; type := select;
       options := [("Light", "Light"); ("Medium", "Medium");
                   ("Dark", "Dark"); ("PreferNot", "Prefer not to say")];
       required := false; min := None; max := None;
       description := "Your skin tone (optional)" |};
    {| id := "height_bracket"; label := "Height"; type := select;
       options := [("<160", "Under 160cm"); ("160-175", "160-175cm");
                   ("175-190", "175-190cm"); (">190", "Over 190cm");
                   ("PreferNot", "Prefer not to say")];
       required := false; min := None; max := None;
       description := "Your height range (optional)" |};
    {| id := "visible_disability"; label := "Visible disability";
       type := boolean; options := []; required := false;
       min := None; max := None;
       description := "Do you have a visible disability? (optional)" |};
    {| id := "concession"; label := "Concession or MYKI Money";
       type := boolean; options := []; required := false;
       min := None; max := None;
       description := "Do you use a concession card or MYKI Money? (optional)" |} ].

Definition stepsConfig : list (list string) :=
  [ ["trips"; "stops"];
    ["age_bracket"; "gender"];
    ["ethnicity"; "skin_tone"];
    ["height_bracket"; "visible_disability"; "concession"] ].

(** [stepsConfig[step]]: the entry of an index in range, [undefined]
    ([None]) for any other number. *)
Definition stepsConfig_at (step : Z) : option (list string) :=
  if 0 <=? step then stepsConfig !! Z.to_nat step else None.

(** [formFields.filter(field => stepsConfig[step]?.includes(field.id))] *)
Definition getFieldsByStep (step : Z) : list FormField :=
  List.filter
    (λ field,
       match stepsConfig_at step with
       | Some ids => bool_decide (id field ∈ ids)
       | None => false
       end)
    formFields.

Definition totalSteps : Z := 4.

End FormConfig.


(** ** The multi-step submission form *)

Module SubmissionForm.
Import FormConfig.

(** The values a form field can hold at run time. *)
Inductive value :=
| undefined
| null
| boolean_value (b : bool)
| number_value (n : Z)
| string_value (s : string).

(** [interface FormState]; [data] and [errors] are objects used as maps
    from field names. *)
Record FormState := {
  data : gmap string value;
  errors : gmap string string;
  isSubmitting : bool;
  currentStep : Z
}.

(** [formState.data[name]]: a missing property reads as [undefined]. *)
Definition get (d : gmap string value) (name : string) : value :=
  default undefined (d !! name).

Definition initialState : FormState :=
  {| data := <["stops" := number_value 0]> (<["trips" := number_value 0]> ∅);
     errors := ∅;
     isSubmitting := false;
     currentStep := 0 |}.

Definition updateField (fieldId : string) (v : value) (prev : FormState)
    : FormState :=
  {| data := <[fieldId := v]> (data prev);
     errors := <[fieldId := ""]> (errors prev);
     isSubmitting := isSubmitting prev;
     currentStep := currentStep prev |}.

(** [if (v)]: the truthiness of a value. *)
Definition truthy (v : value) : bool :=
  match v with
  | undefined | null => false
  | boolean_value b => b
  | number_value n => negb (n =? 0)
  | string_value s => negb (String.eqb s "")
  end.

(** [v === null || v === undefined || v === ''] *)
Definition is_blank (v : value) : bool :=
  match v with
  | undefined | null => true
  | string_value s => String.eqb s ""
  | _ => false
  end.

(** [v !== null && v !== undefined] *)
Definition is_present (v : value) : bool :=
  match v with
  | undefined | null => false
  | _ => true
  end.

(** What the rendered input of a field passes to [onChange]: a number
    input [Number(e.target.value)] or [null], a select the chosen option
    or [null], the three buttons of a boolean [true], [false] or [null].
    The numbers of the form are whole: trips and stops are counts. *)
Definition input_value (field : FormField) (v : value) : Prop :=
  match type field with
  | number => v = null ∨ ∃ n, v = number_value n
  | select =>
      v = null ∨ ∃ s, v = string_value s ∧ s ∈ fst <$> options field
  | boolean => v = null ∨ ∃ b, v = boolean_value b
  end.

(** The value of a number input, [None] for the empty input. *)
Definition number_or_null (o : option Z) : value :=
  match o with
  | Some n => number_value n
  | None => null
  end.

Section Validation.

(** The conversion of a string to a number that [Number(...)] and the
    comparison operators apply to a string value; [None] is [NaN]. The
    number inputs of the form store numbers or [null], never strings. *)
Variable StringToNumber : string → option Z.

(** [Number(v)]; [None] is [NaN]. *)
Definition Number (v : value) : option Z :=
  match v with
  | undefined => None
  | null => Some 0
  | boolean_value b => Some (if b then 1 else 0)
  | number_value n => Some n
  | string_value s => StringToNumber s
  end.

(** [a < b] on numbers: false as soon as one side is [NaN]. *)
Definition lt (a b : option Z) : bool :=
  match a, b with
  | Some x, Some y => x <? y
  | _, _ => false
  end.

(** The body of the [forEach] of [validateCurrentStep] for one field:
    the three [if] blocks in order, each overwriting [errors[field.id]]. *)
Definition validateField (d : gmap string value) (field : FormField)
    (errs : gmap string string) : gmap string string :=
  let v := get d (id field) in
  let errs1 :=
    if required field && is_blank v
    then <[id field := label field +:+ " is required"]> errs
    else errs in
  let errs2 :=
    if bool_decide (type field = number) && is_present v then
      let numValue := Number v in
      let e :=
        match min field with
        | Some m =>
            if lt numValue (Some m)
            then <[id field :=
                     label field +:+ " must be at least " +:+ pretty m]> errs1
            else errs1
        | None => errs1
        end in
      match max field with
      | Some m =>
          if lt (Some m) numValue
          then <[id field :=
                   label field +:+ " must be no more than " +:+ pretty m]> e
          else e
      | None => e
      end
    else errs1 in
  if String.eqb (id field) "stops" && truthy (get d "trips") && is_present v
  then
    if lt (Number (get d "trips")) (Number v)
    then <[id field := "Stops cannot exceed total trips"]> errs2
    else errs2
  else errs2.

(** Whether none of the three checks of [validateField] fires. *)
Definition fieldValid (d : gmap string value) (field : FormField) : bool :=
  let v := get d (id field) in
  negb (required field && is_blank v)
  && negb (bool_decide (type field = number) && is_present v
           && (match min field with
               | Some m => lt (Number v) (Some m)
               | None => false
               end
               || match max field with
                  | Some m => lt (Some m) (Number v)
                  | None => false
                  end))
  && negb (String.eqb (id field) "stops" && truthy (get d "trips")
           && is_present v && lt (Number (get d "trips")) (Number v)).

(** The errors collected over the fields of the current step. *)
Definition stepErrors (st : FormState) : gmap string string :=
  foldl (λ errs field, validateField (data st) field errs) ∅
        (getFieldsByStep (currentStep st)).

(** [validateCurrentStep]: stores the errors and returns whether there
    are none ([Object.keys(errors).length === 0]). *)
Definition validateCurrentStep (st : FormState) : bool * FormState :=
  let errs := stepErrors st in
  (bool_decide (errs = ∅),
   {| data := data st; errors := errs;
      isSubmitting := isSubmitting st; currentStep := currentStep st |}).

Definition handleNext (st : FormState) : FormState :=
  let '(ok, st1) := validateCurrentStep st in
  if ok then
    {| data := data st1; errors := errors st1;
       isSubmitting := isSubmitting st1;
       currentStep := Z.min (currentStep st1 + 1) (totalSteps - 1) |}
  else st1.

Definition handlePrevious (prev : FormState) : FormState :=
  {| data := data prev; errors := errors prev;
     isSubmitting := isSubmitting prev;
     currentStep := Z.max (currentStep prev - 1) 0 |}.

(** [handleSubmit]: when the step validates, [formState.data] is posted
    to [/api/submit] (the first component is the posted body);
    [isSubmitting] is raised for the request and lowered after it. *)
Definition handleSubmit (st : FormState)
    : option (gmap string value) * FormState :=
  let '(ok, st1) := validateCurrentStep st in
  if ok then
    (Some (data st),
     {| data := data st1; errors := errors st1;
        isSubmitting := false; currentStep := currentStep st1 |})
  else (None, st1).

Definition handleReset (_ : FormState) : FormState := initialState.

(** What the rendered form lets a user do: change a field of the current
    step, or press one of the buttons. *)
Inductive ui_step : FormState → FormState → Prop :=
| ui_change st field v :
    field ∈ getFieldsByStep (currentStep st) →
    input_value field v →
    ui_step st (updateField (id field) v st)
| ui_next st : ui_step st (handleNext st)
| ui_previous st : ui_step st (handlePrevious st)
| ui_submit st : ui_step st (handleSubmit st).2
| ui_reset st : ui_step st (handleReset st).

Definition ui_reachable (st : FormState) : Prop :=
  rtc ui_step initialState st.

End Validation.

End SubmissionForm.

(** ** The [POST] handler of the frontend submit route *)

Module SubmitRoute.

(** A parsed JSON document; an object keeps its properties in order. *)
Inductive json :=
| JNull
| JBool (b : bool)
| JNumber (q : Q)
| JString (s : string)
| JArray (items : list json)
| JObject (fields : list (string * json)).

(** The characters of a string as one-character strings. *)
Fixpoint characters (s : string) : list string :=
  match s with
  | EmptyString => []
  | String c rest => String c "" :: characters rest
  end.

(** [{ ...body }]: the own enumerable properties of the body. An object
    gives its properties, an array its items under their indices, a string
    its characters under their indices, anything else nothing. *)
Definition spread (body : json) : list (string * json) :=
  match body with
  | JObject fields => fields
  | JArray items => imap (λ i v, (pretty i, v)) items
  | JString s => imap (λ i c, (pretty i, JString c)) (characters s)
  | _ => []
  end.

(** [sanitizedBody[key] === 'PreferNot'] *)
Definition is_PreferNot (v : json) : bool :=
  match v with
  | JString s => String.eqb s "PreferNot"
  | _ => false
  end.

(** The body of the [forEach] over [Object.keys(sanitizedBody)]. *)
Definition sanitizeField (kv : string * json) : string * json :=
  if is_PreferNot kv.2 then (kv.1, JNull) else kv.

(** The object that [POST] serialises and forwards to the backend. *)
Definition sanitizedBody (body : json) : json :=
  JObject (sanitizeField <$> spread body).

(** Whether a string occurs as a value anywhere in a document. *)
Fixpoint contains_value (s : string) (j : json) : bool :=
  match j with
  | JString t => String.eqb t s
  | JArray items => existsb (contains_value s) items
  | JObject fields => existsb (λ kv, contains_value s (snd kv)) fields
  | _ => false
  end.

(** The value of a top-level property, the first with that name. *)
Fixpoint property (name : string) (fields : list (string * json))
    : option json :=
  match fields with
  | [] => None
  | (k, v) :: rest => if String.eqb k name then Some v else property name rest
  end.

End SubmitRoute.

(** ** The notions of the specification the code is compared with, and
    the auxiliary notions of the proofs *)

Module Spec.
Import Schema.

(** The range invariant of a submission: [1 ≤ trips ≤ 200] and
    [0 ≤ stops ≤ trips], both present. *)
Definition ranges (t s : option Z) : Prop :=
  ∃ a b, t = Some a ∧ s = Some b ∧ 1 <= a <= 200 ∧ 0 <= b <= a.

(** The same invariant on a stored row. *)
Definition row_in_range (r : submission) : Prop :=
  1 <= trips r <= 200 ∧ 0 <= stops r <= trips r.

(** The invariant of the form: the step is one of the steps, the two
    number fields hold a number or [null], and past the first step they
    are in range. *)
Definition form_invariant (st : SubmissionForm.FormState) : Prop :=
  0 <= SubmissionForm.currentStep st <= FormConfig.totalSteps - 1
  ∧ ∃ t s,
      SubmissionForm.get (SubmissionForm.data st) "trips"
        = SubmissionForm.number_or_null t
      ∧ SubmissionForm.get (SubmissionForm.data st) "stops"
        = SubmissionForm.number_or_null s
      ∧ (1 <= SubmissionForm.currentStep st → ranges t s).



(** A row with the given key, trips and stops and no trait, for examples. *)
Definition plain_row (i : uuid) (t s : Z) : submission :=
  {| id := i; created_at := None; age_bracket := None; gender := None;
     ethnicity := None; skin_tone := None; height_bracket := None;
     visible_disability := None; concession := None;
     trips := t; stops := s; user_agent_hash := None |}.
Arguments plain_row (i t s)%_Z_scope.

(** The calendar dates with a four-digit year. *)
Definition date_in_range (d : date) : Prop :=
  (year d <= 9999 ∧ 1 <= month d <= 12 ∧ 1 <= day d <= 31)%N.






End Spec.

(** ** The two public tables together: the foreign key of
    [aggregates_public] *)

Module Database.
Import Schema.

Record db := {
  model_runs : list model_run;
  aggregates_public : list aggregate
}.

Definition empty : db := {| model_runs := []; aggregates_public := [] |}.

(** Whether a row of [aggregates_public] references the run:
    [model_run_id UUID REFERENCES model_runs(run_id)]. *)
Definition referenced (aggs : list aggregate) (m : model_run) : bool :=
  existsb (λ a, bool_decide (model_run_id a = Some (run_id m))) aggs.

(** [DELETE FROM model_runs WHERE NOT keep]. The constraint names no
    [ON DELETE] action, so the statement fails as a whole when a row it
    would delete is still referenced. *)
Definition delete_model_runs (keep : model_run → bool) (d : db) : option db :=
  if existsb (λ m, negb (keep m) && referenced (aggregates_public d) m)
             (model_runs d)
  then None
  else Some {| model_runs := List.filter keep (model_runs d);
               aggregates_public := aggregates_public d |}.

Inductive statement :=
| InsertRun (v : model_run_values)
| InsertAggregate (v : aggregate_values)
| DeleteAggregates (keep : aggregate → bool)
| DeleteRuns (keep : model_run → bool).

(** One statement; a failing statement leaves the database as it was. *)
Definition exec (d : db) (s : statement) : db :=
  match s with
  | InsertRun v =>
      match insert_model_run (model_runs d) v with
      | Some runs => {| model_runs := runs;
                        aggregates_public := aggregates_public d |}
      | None => d
      end
  | InsertAggregate v =>
      {| model_runs := model_runs d;
         aggregates_public :=
           (exec_insert_aggregate (model_runs d) (aggregates_public d) v).1 |}
  | DeleteAggregates keep =>
      {| model_runs := model_runs d;
         aggregates_public := List.filter keep (aggregates_public d) |}
  | DeleteRuns keep => default d (delete_model_runs keep d)
  end.

Definition run (script : list statement) : db := foldl exec empty script.

(** The enumerated type of a column of [submissions], by the labels it
    accepts; [None] for the columns of another type. *)
Definition column_labels (column : string) : option (list string) :=
  if String.eqb column "age_bracket" then Some (fst <$> Enums.age_bracket_labels)
  else if String.eqb column "gender" then Some (fst <$> Enums.gender_labels)
  else if String.eqb column "ethnicity" then Some (fst <$> Enums.ethnicity_labels)
  else if String.eqb column "skin_tone" then Some (fst <$> Enums.skin_tone_labels)
  else if String.eqb column "height_bracket"
  then Some (fst <$> Enums.height_bracket_labels)
  else None.

End Database.

(** ** The one-question-at-a-time form, [GamifiedForm] *)

Module GamifiedForm.
Import FormConfig SubmissionForm.

(** [formFields.find(f => f.id === name)]; [None] is [undefined]. *)
Definition findField (name : string) : option FormField :=
  List.find (λ f, String.eqb (id f) name) formFields.

Definition gamifiedQuestions : list (option FormField) :=
  [ findField "trips"; findField "stops"; findField "age_bracket";
    findField "gender"; findField "ethnicity"; findField "skin_tone";
    findField "height_bracket"; findField "concession";
    findField "visible_disability" ].

(** [gamifiedQuestions[formState.currentStep]] *)
Definition currentQuestion (st : FormState) : option FormField :=
  (if 0 <=? currentStep st
   then gamifiedQuestions !! Z.to_nat (currentStep st)
   else None) ≫= λ q, q.

(** [formState.currentStep >= gamifiedQuestions.length] *)
Definition isComplete (st : FormState) : bool :=
  Z.of_nat (length gamifiedQuestions) <=? currentStep st.

(** One answer button: its text and the value it stores. *)
Record answer := { answer_label : string; answer_value : value }.

Definition tripsAnswers : list answer :=
  [ {| answer_label := "1-5 trips"; answer_value := number_value 3 |};
    {| answer_label := "6-10 trips"; answer_value := number_value 8 |};
    {| answer_label := "11-20 trips"; answer_value := number_value 15 |};
    {| answer_label := "21-50 trips"; answer_value := number_value 35 |};
    {| answer_label := "50+ trips"; answer_value := number_value 75 |} ].

Definition preferNotToAnswer : answer :=
  {| answer_label := "Prefer not to answer"; answer_value := null |}.

Section Options.

Variable StringToNumber : string → option Z.

(** [Math.min(formState.data.trips || 10, 20)]; [None] is [NaN]. *)
Definition maxStops (d : gmap string value) : option Z :=
  let trips := get d "trips" in
  match Number StringToNumber (if truthy trips then trips else number_value 10) with
  | Some n => Some (Z.min n 20)
  | None => None
  end.

(** [Array.from({ length: maxStops + 1 }, (_, i) => ...)]: a length that
    is [NaN] or negative gives the empty array. *)
Definition stopsAnswers (d : gmap string value) : list answer :=
  match maxStops d with
  | Some m =>
      (λ i, {| answer_label :=
                 if i =? 0 then "Never stopped"
                 else pretty i +:+ " time" +:+ (if i =? 1 then "" else "s");
               answer_value := number_value i |})
      <$> seqZ 0 (m + 1)
  | None => []
  end.

(** [getOptionsForQuestion]: the quick answers of the two number
    questions, Yes and No for a boolean, the configured options for a
    select, and "Prefer not to answer" after them when the question is
    optional. A field of [formFields] without [options] has the empty
    list here, and gives no answer. *)
Definition getOptionsForQuestion (d : gmap string value)
    (question : FormField) : list answer :=
  if bool_decide (type question = number) && String.eqb (id question) "trips"
  then tripsAnswers
  else if bool_decide (type question = number)
          && String.eqb (id question) "stops"
  then stopsAnswers d
  else if bool_decide (type question = boolean) then
    [ {| answer_label := "Yes"; answer_value := boolean_value true |};
      {| answer_label := "No"; answer_value := boolean_value false |} ]
    ++ (if required question then [] else [preferNotToAnswer])
  else
    match options question with
    | [] => []
    | opts =>
        ((λ opt, {| answer_label := opt.2;
                    answer_value := string_value opt.1 |}) <$> opts)
        ++ (if required question then [] else [preferNotToAnswer])
    end.

End Options.

(** [handleAnswer], with the question of the render it was created in:
    the answer is stored and the form moves to the next question. *)
Definition handleAnswer (question : FormField) (v : value)
    (prev : FormState) : FormState :=
  {| data := <[id question := v]> (data prev);
     errors := errors prev;
     isSubmitting := isSubmitting prev;
     currentStep := currentStep prev + 1 |}.

Definition handlePrevious (st : FormState) : FormState :=
  if 0 <? currentStep st then
    {| data := data st; errors := errors st;
       isSubmitting := isSubmitting st;
       currentStep := currentStep st - 1 |}
  else st.

Definition handleReset (_ : FormState) : FormState := initialState.

(** [setFormState(prev => ({ ...prev, isSubmitting }))] of [handleSubmit]. *)
Definition setSubmitting (b : bool) (prev : FormState) : FormState :=
  {| data := data prev; errors := errors prev;
     isSubmitting := b; currentStep := currentStep prev |}.

(** The states of the form. A click on an answer runs [handleAnswer]
    200 ms later ([setTimeout] in [AnimatedButton]), with the question and
    the answer of the render that was clicked ([clicked]), on the state the
    form has by then ([st]). *)
Inductive reachable (StringToNumber : string → option Z)
    : FormState → Prop :=
| reach_initial : reachable StringToNumber initialState
| reach_answer clicked st question a :
    reachable StringToNumber clicked →
    reachable StringToNumber st →
    isComplete clicked = false →
    currentQuestion clicked = Some question →
    a ∈ getOptionsForQuestion StringToNumber (data clicked) question →
    reachable StringToNumber (handleAnswer question (answer_value a) st)
| reach_previous st :
    reachable StringToNumber st →
    reachable StringToNumber (handlePrevious st)
| reach_submitting st b :
    reachable StringToNumber st →
    reachable StringToNumber (setSubmitting b st)
| reach_reset st :
    reachable StringToNumber st →
    reachable StringToNumber (handleReset st).

(** The states of a form whose answers land in turn: no click falls in
    the 200 ms between a click on an answer and its [handleAnswer], so
    each handler runs on the state of the render that was clicked. The
    answers and the Previous button are rendered while the form is not
    complete. *)
Inductive reachable_in_turn (StringToNumber : string → option Z)
    : FormState → Prop :=
| turn_initial : reachable_in_turn StringToNumber initialState
| turn_answer st question a :
    reachable_in_turn StringToNumber st →
    isComplete st = false →
    currentQuestion st = Some question →
    a ∈ getOptionsForQuestion StringToNumber (data st) question →
    reachable_in_turn StringToNumber (handleAnswer question (answer_value a) st)
| turn_previous st :
    reachable_in_turn StringToNumber st →
    isComplete st = false →
    reachable_in_turn StringToNumber (handlePrevious st)
| turn_submitting st b :
    reachable_in_turn StringToNumber st →
    reachable_in_turn StringToNumber (setSubmitting b st)
| turn_reset st :
    reachable_in_turn StringToNumber st →
    reachable_in_turn StringToNumber (handleReset st).

(** The bounds of the two counts that hold in every state of the form. *)
Definition counts_bounded (st : FormState) : Prop :=
  0 <= currentStep st
  ∧ ∃ t s, data st !! "trips" = Some (number_value t)
           ∧ data st !! "stops" = Some (number_value s)
           ∧ t ∈ [0; 3; 8; 15; 35; 75] ∧ 0 <= s <= 20.

(** The bounds that hold when the answers land in turn: past the first
    question the trips are answered, past the second the stops are within
    them. *)
Definition counts_in_turn (st : FormState) : Prop :=
  0 <= currentStep st
  ∧ ∃ t s, data st !! "trips" = Some (number_value t)
           ∧ data st !! "stops" = Some (number_value s)
           ∧ 0 <= t <= 75 ∧ 0 <= s <= 20
           ∧ (1 <= currentStep st → 3 <= t)
           ∧ (2 <= currentStep st → s <= t).

(** A run of the form for the examples: the first answer offered is
    chosen, for [n] questions in a row. *)
Fixpoint answer_first (StringToNumber : string → option Z) (n : nat)
    (st : FormState) : FormState :=
  match n with
  | O => st
  | S n =>
      match currentQuestion st with
      | Some question =>
          match getOptionsForQuestion StringToNumber (data st) question with
          | a :: _ =>
              answer_first StringToNumber n
                (handleAnswer question (answer_value a) st)
          | [] => st
          end
      | None => st
      end
  end.

End GamifiedForm.

(** ** The body of a submission on the wire *)

Module Wire.
Import SubmissionForm SubmitRoute.

(** [JSON.stringify] on the value of a property of [formState.data], as
    [request.json()] reads it back: a property that is [undefined] is left
    out of the text. *)
Definition stringify (v : value) : option json :=
  match v with
  | undefined => None
  | null => Some JNull
  | boolean_value b => Some (JBool b)
  | number_value n => Some (JNumber (inject_Z n))
  | string_value s => Some (JString s)
  end.

End Wire.

(** * Properties *)

(** ** The rate and the activation gate *)

Module RateProofs.
Import Schema Spec.


Lemma calculate_rate_per_100_zero (stops : option Z) :
  calculate_rate_per_100 stops (Some 0) = Some 0%Q.
Proof. reflexivity. Qed.




(** *** The activation gate *)

Lemma to_int4_in_range (z : Z) :
  Sql.int4_min <= z <= Sql.int4_max → Sql.to_int4 z = Some z.
Proof.
  intros [Hlo Hhi]. unfold Sql.to_int4.
  apply Z.leb_le in Hlo. apply Z.leb_le in Hhi. rewrite Hlo, Hhi. reflexivity.
Qed.

(** C3. [check_minimum_sample] returns a row for every table whose row
    count and stop total fit the [INTEGER] variables of the function; the
    row carries the count and the total, and [meets_minimum] is true
    exactly when there are at least 500 submissions and at least 100 stops
    in total: a table with 499 rows, or with 99 stops, gives false, and a
    table that crosses both thresholds gives true. *)
Theorem C3_check_minimum_sample (tbl : list submission) :
  sql_count tbl <= Sql.int4_max →
  Sql.int4_min <= coalesce (sql_sum (stops <$> tbl)) 0 <= Sql.int4_max →
  ∃ row,
    check_minimum_sample tbl = Some row
    ∧ total_submissions row = sql_count tbl
    ∧ total_stops row = coalesce (sql_sum (stops <$> tbl)) 0
    ∧ (meets_minimum row = true
       ↔ 500 <= total_submissions row ∧ 100 <= total_stops row)
    ∧ (total_submissions row = 499 → meets_minimum row = false)
    ∧ (total_stops row = 99 → meets_minimum row = false)
    ∧ (500 <= total_submissions row → 100 <= total_stops row →
       meets_minimum row = true).
Proof.
  intros Hc Hs. unfold check_minimum_sample.
  rewrite (to_int4_in_range (sql_count tbl)).
  2:{ split; [|exact Hc]. unfold sql_count, Sql.int4_min. lia. }
  rewrite (to_int4_in_range _ Hs). simpl.
  eexists. split; [reflexivity|]. simpl.
  unfold min_submissions, min_stops.
  set (n := sql_count tbl). set (k := coalesce (sql_sum (stops <$> tbl)) 0).
  assert (Hiff : (500 <=? n) && (100 <=? k) = true ↔ 500 <= n ∧ 100 <= k).
  { rewrite andb_true_iff, !Z.leb_le. reflexivity. }
  split_and!; try reflexivity.
  - exact Hiff.
  - intros Hn. apply not_true_is_false. rewrite Hiff. lia.
  - intros Hk. apply not_true_is_false. rewrite Hiff. lia.
  - intros Hn Hk. apply Hiff. lia.
Qed.

Lemma C3_check_minimum_sample_witness :
  ∃ row,
    check_minimum_sample [plain_row 1 20 1; plain_row 2 25 2] = Some row
    ∧ total_submissions row = 2
    ∧ total_stops row = 3
    ∧ (meets_minimum row = true
       ↔ 500 <= total_submissions row ∧ 100 <= total_stops row)
    ∧ (total_submissions row = 499 → meets_minimum row = false)
    ∧ (total_stops row = 99 → meets_minimum row = false)
    ∧ (500 <= total_submissions row → 100 <= total_stops row →
       meets_minimum row = true).
Proof.
  apply (C3_check_minimum_sample [plain_row 1 20 1; plain_row 2 25 2]).
  - vm_compute. discriminate.
  - vm_compute. split; discriminate.
Defined.

End RateProofs.

(** ** The constraints of the tables *)

Module TableProofs.
Import Enums Schema Spec.

Lemma trips_stops_constraints_ranges (t s : option Z) :
  trips_stops_constraints t s = true ↔ ranges t s.
Proof.
  unfold trips_stops_constraints, ranges. split.
  - destruct t as [a|], s as [b|]; simpl; try discriminate.
    + destruct (1 <=? a) eqn:H1, (a <=? 200) eqn:H2, (0 <=? b) eqn:H3,
        (b <=? a) eqn:H4; simpl; try discriminate.
      intros _. exists a, b. split_and!; try reflexivity; lia.
    + rewrite andb_false_r. discriminate.
  - intros (a & b & -> & -> & Ha & Hb). simpl.
    replace (1 <=? a) with true by lia. replace (a <=? 200) with true by lia.
    replace (0 <=? b) with true by lia. replace (b <=? a) with true by lia.
    reflexivity.
Qed.

Lemma insert_submission_inv tbl v tbl' :
  insert_submission tbl v = Some tbl' →
  ∃ r, tbl' = (tbl ++ [r])%list
       ∧ v_id v = Some (id r) ∧ (id r ∉ id <$> tbl)
       ∧ v_trips v = Some (trips r) ∧ v_stops v = Some (stops r)
       ∧ ranges (v_trips v) (v_stops v).
Proof.
  unfold insert_submission. intros H.
  destruct (v_id v) as [i|]; simpl in H; [|discriminate].
  case_bool_decide as Hi; [discriminate|].
  destruct (cast_nullable _ (v_age_bracket v)); simpl in H; [|discriminate].
  destruct (cast_nullable _ (v_gender v)); simpl in H; [|discriminate].
  destruct (cast_nullable _ (v_ethnicity v)); simpl in H; [|discriminate].
  destruct (cast_nullable _ (v_skin_tone v)); simpl in H; [|discriminate].
  destruct (cast_nullable _ (v_height_bracket v)); simpl in H; [|discriminate].
  destruct (trips_stops_constraints _ _) eqn:Hc; simpl in H; [|discriminate].
  apply trips_stops_constraints_ranges in Hc.
  pose proof Hc as (a & b & Ha & Hb & _). rewrite Ha, Hb in H. simpl in H.
  injection H as <-. eexists. split; [reflexivity|]. simpl.
  rewrite <- Ha, <- Hb. auto.
Qed.

Lemma insert_submission_rejects tbl v :
  ¬ ranges (v_trips v) (v_stops v) → insert_submission tbl v = None.
Proof.
  intros Hn. destruct (insert_submission tbl v) as [tbl'|] eqn:H; [|done].
  apply insert_submission_inv in H as (? & _ & _ & _ & _ & _ & Hr). done.
Qed.

Lemma submissions_reachable_in_range tbl :
  submissions_reachable tbl → Forall row_in_range tbl.
Proof.
  induction 1 as [|tbl v _ IH|tbl keep _ IH].
  - constructor.
  - unfold exec_insert_submission.
    destruct (insert_submission tbl v) as [tbl'|] eqn:Hins; simpl; [|exact IH].
    apply insert_submission_inv in Hins
      as (r & -> & _ & _ & Ht & Hs & (a & b & Ha & Hb & Hr)).
    apply Forall_app. split; [exact IH|]. constructor; [|constructor].
    unfold row_in_range. rewrite Ht in Ha. rewrite Hs in Hb.
    injection Ha as ->. injection Hb as ->. exact Hr.
  - apply Forall_forall. intros r Hr. apply list_elem_of_In in Hr.
    apply filter_In in Hr as [Hr _]. apply list_elem_of_In in Hr.
    rewrite Forall_forall in IH. apply IH, Hr.
Qed.

End TableProofs.

(** ** Aggregate rates *)

Module AggregateRateProofs.
Import Enums Schema Spec.


Lemma insert_sample_values tbl i now age gen eth skin height dis conc t s
    a g e k h :
  i ∉ id <$> tbl →
  cast age_bracket_labels age = Some a →
  cast gender_labels gen = Some g →
  cast ethnicity_labels eth = Some e →
  cast skin_tone_labels skin = Some k →
  cast height_bracket_labels height = Some h →
  1 <= t <= 200 → 0 <= s <= t →
  insert_submission tbl
    (sample_values i now age gen eth skin height dis conc t s)
  = Some (tbl ++ [{| id := i; created_at := Some now;
                     age_bracket := Some a; gender := Some g;
                     ethnicity := Some e; skin_tone := Some k;
                     height_bracket := Some h;
                     visible_disability := Some dis;
                     concession := Some conc;
                     trips := t; stops := s;
                     user_agent_hash := None |}])%list.
Proof.
  intros Hi Ha Hg He Hk Hh Ht Hs.
  unfold insert_submission, sample_values, cast_nullable.
  cbn -[cast trips_stops_constraints].
  rewrite bool_decide_eq_false_2 by exact Hi.
  rewrite Ha, Hg, He, Hk, Hh. cbn -[trips_stops_constraints].
  assert (Hc : trips_stops_constraints (Some t) (Some s) = true).
  { apply TableProofs.trips_stops_constraints_ranges. exists t, s. auto. }
  rewrite Hc. reflexivity.
Qed.




(** *** The average of [public_stats] *)









(** The two aggregates of [check_minimum_sample] fit its [INTEGER]
    variables on every table the database can hold below ten million
    rows. *)
Lemma aggregates_fit_int4 (tbl : list submission) :
  submissions_reachable tbl → sql_count tbl <= 10000000 →
  sql_count tbl <= Sql.int4_max
  ∧ Sql.int4_min <= coalesce (sql_sum (stops <$> tbl)) 0 <= Sql.int4_max.
Proof.
  intros Hreach Hn. apply TableProofs.submissions_reachable_in_range in Hreach.
  assert (Hsum : 0 <= fold_right Z.add 0 (stops <$> tbl) <= 200 * sql_count tbl).
  { clear Hn. unfold sql_count.
    induction Hreach as [|r l [Ht Hs] _ IH]; [cbn; lia|].
    rewrite fmap_cons. cbn [fold_right length]. lia. }
  assert (Hc : coalesce (sql_sum (stops <$> tbl)) 0
               = fold_right Z.add 0 (stops <$> tbl)).
  { destruct tbl; reflexivity. }
  rewrite Hc. unfold Sql.int4_min, Sql.int4_max. lia.
Qed.

End AggregateRateProofs.

(** ** The submission form *)

Module FormProofs.
Import FormConfig SubmissionForm Spec.

Section WithStringToNumber.

Variable StringToNumber : string → option Z.

(** An error, once recorded, stays: a field adds to the errors or leaves
    them alone. *)
Lemma validateField_empty d field errs :
  validateField StringToNumber d field errs = ∅
  ↔ errs = ∅ ∧ fieldValid StringToNumber d field = true.
Proof.
  unfold validateField, fieldValid.
  set (v := get d (id field)).
  destruct (required field && is_blank v);
    destruct (bool_decide (type field = number) && is_present v);
    destruct (min field) as [lo|]; destruct (max field) as [hi|];
    try destruct (lt (Number StringToNumber v) (Some lo));
    try destruct (lt (Some hi) (Number StringToNumber v));
    destruct ((id field =? "stops")%string && truthy (get d "trips")
              && is_present v);
    try destruct (lt (Number StringToNumber (get d "trips"))
                     (Number StringToNumber v));
    cbn; split;
    first
      [ intros [_ ?]; discriminate
      | intros H; exfalso; exact (insert_non_empty _ _ _ H)
      | intros H; split; [exact H | reflexivity]
      | intros [H _]; exact H ].
Qed.

Lemma foldl_validateField_empty d fields errs :
  foldl (λ e f, validateField StringToNumber d f e) errs fields = ∅
  ↔ errs = ∅ ∧ Forall (λ f, fieldValid StringToNumber d f = true) fields.
Proof.
  revert errs. induction fields as [|f fields IH]; intros errs; simpl.
  - split; [intros H; split; [exact H | constructor] | intros [H _]; exact H].
  - rewrite IH, validateField_empty, Forall_cons. tauto.
Qed.

Lemma validateCurrentStep_true st :
  (validateCurrentStep StringToNumber st).1 = true
  ↔ Forall (λ f, fieldValid StringToNumber (data st) f = true)
           (getFieldsByStep (currentStep st)).
Proof.
  unfold validateCurrentStep, stepErrors. cbn [fst].
  rewrite bool_decide_eq_true, foldl_validateField_empty. tauto.
Qed.

Lemma validateCurrentStep_data st :
  data (validateCurrentStep StringToNumber st).2 = data st
  ∧ currentStep (validateCurrentStep StringToNumber st).2 = currentStep st.
Proof. split; reflexivity. Qed.

(** On the first step, which holds [trips] and [stops], the validation
    passes exactly on the values in range. *)
Lemma first_step_valid d t s :
  get d "trips" = number_or_null t →
  get d "stops" = number_or_null s →
  Forall (λ f, fieldValid StringToNumber d f = true) (getFieldsByStep 0)
  ↔ ranges t s.
Proof.
  intros Ht Hs.
  let l := eval vm_compute in (getFieldsByStep 0) in
  change (getFieldsByStep 0) with l.
  rewrite !Forall_cons, Forall_nil.
  unfold fieldValid. cbn [id label type required min max options description].
  rewrite Ht, Hs. unfold ranges.
  destruct t as [a|], s as [b|]; cbn.
  - destruct (a <? 1) eqn:E1, (200 <? a) eqn:E2, (b <? 0) eqn:E3,
      (a =? 0) eqn:E4, (a <? b) eqn:E5; cbn;
      (split; [intros (H1 & H2 & _); try discriminate;
               exists a, b; split_and!; try reflexivity; lia
              |intros (? & ? & [= <-] & [= <-] & ? & ?);
               try (exfalso; lia); auto]).
  - split; [intros (_ & H & _); discriminate
           |intros (? & ? & _ & [=] & _)].
  - split; [intros (H & _); discriminate
           |intros (? & ? & [=] & _)].
  - split; [intros (H & _); discriminate
           |intros (? & ? & [=] & _)].
Qed.

(** *** The invariant of the form *)

Lemma getFieldsByStep_inv step field :
  field ∈ getFieldsByStep step →
  field ∈ formFields
  ∧ ∃ ids, stepsConfig_at step = Some ids ∧ id field ∈ ids.
Proof.
  unfold getFieldsByStep. rewrite list_elem_of_In, filter_In, <- list_elem_of_In.
  intros [Hin Hc]. split; [exact Hin|].
  destruct (stepsConfig_at step) as [ids|]; [|discriminate].
  exists ids. split; [reflexivity|]. apply bool_decide_eq_true in Hc. exact Hc.
Qed.

Lemma number_fields field :
  field ∈ formFields →
  id field = "trips" ∨ id field = "stops" → type field = number.
Proof.
  unfold formFields. rewrite !elem_of_cons, elem_of_nil.
  intros H. repeat (destruct H as [->|H]); cbn; try reflexivity;
    try (intros [?|?]; discriminate).
  destruct H.
Qed.

Lemma later_steps step field :
  1 <= step →
  field ∈ getFieldsByStep step →
  id field ≠ "trips" ∧ id field ≠ "stops".
Proof.
  intros Hstep Hin. apply getFieldsByStep_inv in Hin as (_ & ids & Hids & Hid).
  unfold stepsConfig_at in Hids.
  destruct (0 <=? step); [|discriminate].
  destruct (Z.to_nat step) as [|[|[|[|n]]]] eqn:E; cbn in Hids;
    try discriminate; [lia|..]; injection Hids as <-;
    rewrite !elem_of_cons, elem_of_nil in Hid;
    repeat (destruct Hid as [->|Hid]); try (split; discriminate);
    destruct Hid.
Qed.

Lemma get_updateField name fieldId v st :
  get (data (updateField fieldId v st)) name
  = if decide (fieldId = name) then v else get (data st) name.
Proof.
  unfold get, updateField. cbn [data]. rewrite lookup_insert.
  destruct (decide (fieldId = name)); reflexivity.
Qed.

Lemma input_number field v :
  type field = number → input_value field v → ∃ o, v = number_or_null o.
Proof.
  unfold input_value. intros ->. intros [->|[n ->]].
  - exists None. reflexivity.
  - exists (Some n). reflexivity.
Qed.

Lemma form_invariant_initial : form_invariant initialState.
Proof.
  split; [cbn; unfold totalSteps; lia|].
  exists (Some 0), (Some 0). split_and!; [reflexivity..|cbn; lia].
Qed.

Lemma form_invariant_change st field v :
  field ∈ getFieldsByStep (currentStep st) →
  input_value field v →
  form_invariant st → form_invariant (updateField (id field) v st).
Proof.
  intros Hin Hv (Hstep & t & s & Ht & Hs & Hr).
  split; [exact Hstep|]. rewrite !get_updateField.
  pose proof (getFieldsByStep_inv _ _ Hin) as (Hff & _).
  destruct (decide (1 <= currentStep st)) as [H1|H0].
  - destruct (later_steps _ _ H1 Hin) as [Nt Ns].
    exists t, s. rewrite !decide_False by assumption. auto.
  - assert (Hnone : ∀ t' s', 1 <= currentStep (updateField (id field) v st) →
                              ranges t' s').
    { intros ? ? H. cbn in H. lia. }
    destruct (decide (id field = "trips")) as [Et|Nt];
      destruct (decide (id field = "stops")) as [Es|Ns].
    + rewrite Et in Es. discriminate.
    + destruct (input_number field v (number_fields _ Hff (or_introl Et)) Hv)
        as [o ->]. exists o, s. auto.
    + destruct (input_number field v (number_fields _ Hff (or_intror Es)) Hv)
        as [o ->]. exists t, o. auto.
    + exists t, s. auto.
Qed.

Lemma form_invariant_next st :
  form_invariant st → form_invariant (handleNext StringToNumber st).
Proof.
  intros (Hstep & t & s & Ht & Hs & Hr). unfold handleNext.
  destruct (validateCurrentStep StringToNumber st) as [ok st1] eqn:E.
  pose proof (validateCurrentStep_true st) as Hok.
  pose proof (validateCurrentStep_data st) as [Hd Hc].
  rewrite E in Hok, Hd, Hc. cbn [fst snd] in Hok, Hd, Hc.
  destruct ok.
  - split; cbn [currentStep data]; rewrite ?Hd, ?Hc;
      [unfold totalSteps in *; lia|].
    exists t, s. split_and!; [assumption..|]. intros _.
    destruct (decide (1 <= currentStep st)) as [H1|H0]; [auto|].
    assert (E0 : currentStep st = 0) by lia.
    rewrite E0 in Hok. apply (first_step_valid (data st)); [assumption..|].
    apply Hok. reflexivity.
  - split; rewrite ?Hd, ?Hc; [exact Hstep|]. exists t, s. auto.
Qed.

Lemma form_invariant_previous st :
  form_invariant st → form_invariant (handlePrevious st).
Proof.
  intros (Hstep & t & s & Ht & Hs & Hr).
  split; cbn [handlePrevious currentStep data]; [unfold totalSteps in *; lia|].
  exists t, s. split_and!; [assumption..|]. intros H. apply Hr. lia.
Qed.

Lemma handleSubmit_state st :
  data (handleSubmit StringToNumber st).2 = data st
  ∧ currentStep (handleSubmit StringToNumber st).2 = currentStep st.
Proof.
  unfold handleSubmit, validateCurrentStep.
  destruct (bool_decide _); split; reflexivity.
Qed.

Lemma form_invariant_submit st :
  form_invariant st → form_invariant (handleSubmit StringToNumber st).2.
Proof.
  intros (Hstep & t & s & Ht & Hs & Hr).
  destruct (handleSubmit_state st) as [Hd Hc].
  split; rewrite ?Hd, ?Hc; [exact Hstep|]. exists t, s. auto.
Qed.

Lemma ui_step_invariant st st' :
  ui_step StringToNumber st st' → form_invariant st → form_invariant st'.
Proof.
  destruct 1.
  - apply form_invariant_change; assumption.
  - apply form_invariant_next.
  - apply form_invariant_previous.
  - apply form_invariant_submit.
  - intros _. apply form_invariant_initial.
Qed.

Lemma ui_reachable_invariant st :
  ui_reachable StringToNumber st → form_invariant st.
Proof.
  unfold ui_reachable. intros H.
  apply (rtc_ind_r (λ s, form_invariant s) initialState) with (3 := H).
  - apply form_invariant_initial.
  - intros st1 st2 _ Hstep IH. exact (ui_step_invariant _ _ Hstep IH).
Qed.

(** What the form posts has both numbers in range. *)
Lemma handleSubmit_posts_in_range st body :
  ui_reachable StringToNumber st →
  (handleSubmit StringToNumber st).1 = Some body →
  body = data st
  ∧ ∃ t s, get body "trips" = number_value t
           ∧ get body "stops" = number_value s
           ∧ 1 <= t <= 200 ∧ 0 <= s <= t.
Proof.
  intros Hreach Hpost.
  apply ui_reachable_invariant in Hreach as (Hstep & t & s & Ht & Hs & Hr).
  unfold handleSubmit in Hpost.
  destruct (validateCurrentStep StringToNumber st) as [ok st1] eqn:E.
  pose proof (validateCurrentStep_true st) as Hok.
  rewrite E in Hok. cbn [fst] in Hok.
  destruct ok; [|discriminate]. injection Hpost as <-.
  split; [reflexivity|].
  assert (Hrange : ranges t s).
  { destruct (decide (1 <= currentStep st)) as [H1|H0]; [auto|].
    assert (E0 : currentStep st = 0) by lia.
    rewrite E0 in Hok. apply (first_step_valid (data st)); [assumption..|].
    apply Hok. reflexivity. }
  destruct Hrange as (a & b & -> & -> & Ha & Hb).
  exists a, b. auto.
Qed.

(** C10. The step index of the form stays within [0, totalSteps - 1]: it
    starts at 0, [handleNext] moves it to [min (step + 1) (totalSteps - 1)]
    when the step validates and leaves it otherwise, [handlePrevious]
    moves it to [max (step - 1) 0]; so in every state reachable through
    the form the step is in range, before and after either button, and
    [getFieldsByStep] reads an existing entry of [stepsConfig]. *)
Theorem C10_current_step_in_range (st : FormState) :
  ui_reachable StringToNumber st →
  currentStep initialState = 0
  ∧ 0 <= currentStep st <= totalSteps - 1
  ∧ is_Some (stepsConfig_at (currentStep st))
  ∧ currentStep (handleNext StringToNumber st)
    = (if (validateCurrentStep StringToNumber st).1
       then Z.min (currentStep st + 1) (totalSteps - 1)
       else currentStep st)
  ∧ currentStep (handlePrevious st) = Z.max (currentStep st - 1) 0
  ∧ 0 <= currentStep (handleNext StringToNumber st) <= totalSteps - 1
  ∧ 0 <= currentStep (handlePrevious st) <= totalSteps - 1.
Proof.
  intros Hreach.
  pose proof (ui_reachable_invariant st Hreach) as Hinv.
  pose proof (form_invariant_next st Hinv) as [Hn _].
  pose proof (form_invariant_previous st Hinv) as [Hp _].
  destruct Hinv as [Hstep _].
  split_and!; try (unfold totalSteps in *; lia); try reflexivity.
  - unfold stepsConfig_at, totalSteps in *.
    destruct (0 <=? currentStep st) eqn:E; [|lia].
    apply lookup_lt_is_Some_2. cbn. lia.
  - unfold handleNext, validateCurrentStep. cbn [fst].
    destruct (bool_decide _); reflexivity.
Qed.

(** C1. Every row of the table [submissions] has [1 ≤ trips ≤ 200] and
    [0 ≤ stops ≤ trips]: an accepted [INSERT] appends a row with the
    submitted trips and stops in range; a candidate whose trips are outside
    [1, 200] or whose stops are outside [0, trips] (or missing) makes the
    [INSERT] fail and leaves the table as it was; the validation of the
    form step that holds the two fields returns false on it; and whatever
    the form posts has both numbers in range. *)
Theorem C1_submission_ranges :
  (∀ tbl r, Schema.submissions_reachable tbl → r ∈ tbl →
            1 <= Schema.trips r <= 200
            ∧ 0 <= Schema.stops r <= Schema.trips r)
  ∧ (∀ tbl v tbl', Schema.insert_submission tbl v = Some tbl' →
       ∃ r, tbl' = (tbl ++ [r])%list
            ∧ Schema.v_trips v = Some (Schema.trips r)
            ∧ Schema.v_stops v = Some (Schema.stops r)
            ∧ 1 <= Schema.trips r <= 200
            ∧ 0 <= Schema.stops r <= Schema.trips r)
  ∧ (∀ tbl v, ¬ ranges (Schema.v_trips v) (Schema.v_stops v) →
       Schema.exec_insert_submission tbl v = (tbl, false))
  ∧ (∀ st t s, currentStep st = 0 →
       get (data st) "trips" = number_or_null t →
       get (data st) "stops" = number_or_null s →
       ¬ ranges t s →
       (validateCurrentStep StringToNumber st).1 = false)
  ∧ (∀ st body, ui_reachable StringToNumber st →
       (handleSubmit StringToNumber st).1 = Some body →
       ∃ t s, get body "trips" = number_value t
              ∧ get body "stops" = number_value s
              ∧ 1 <= t <= 200 ∧ 0 <= s <= t).
Proof.
  split_and!.
  - intros tbl r Hreach Hin.
    apply TableProofs.submissions_reachable_in_range in Hreach.
    rewrite Forall_forall in Hreach. exact (Hreach r Hin).
  - intros tbl v tbl' Hins.
    apply TableProofs.insert_submission_inv in Hins
      as (r & -> & _ & _ & Ht & Hs & (a & b & Ha & Hb & Hr)).
    exists r.
    assert (a = Schema.trips r) as -> by congruence.
    assert (b = Schema.stops r) as -> by congruence.
    auto.
  - intros tbl v Hn. unfold Schema.exec_insert_submission.
    rewrite (TableProofs.insert_submission_rejects tbl v Hn). reflexivity.
  - intros st t s Hstep Ht Hs Hn. apply not_true_is_false. intros Hok.
    apply validateCurrentStep_true in Hok. rewrite Hstep in Hok.
    apply Hn, (first_step_valid (data st)); assumption.
  - intros st body Hreach Hpost.
    destruct (handleSubmit_posts_in_range st body Hreach Hpost) as [_ H].
    exact H.
Qed.

End WithStringToNumber.

Lemma C10_current_step_in_range_witness :
  ui_reachable (λ _, None) (handleNext (λ _, None) (handlePrevious initialState))
  ∧ currentStep initialState = 0
  ∧ 0 <= currentStep (handleNext (λ _, None) (handlePrevious initialState))
      <= totalSteps - 1.
Proof.
  assert (H : ui_reachable (λ _, None)
                (handleNext (λ _, None) (handlePrevious initialState))).
  { eapply rtc_r; [eapply rtc_r; [apply rtc_refl|apply ui_previous]
                  |apply ui_next]. }
  split; [exact H|].
  destruct (C10_current_step_in_range (λ _, None) _ H) as (H0 & Hr & _).
  split; [exact H0 | exact Hr].
Defined.

Lemma C1_submission_ranges_witness :
  ¬ ranges (Some 201) (Some 3)
  ∧ Schema.exec_insert_submission []
      (Schema.sample_values 1 0 "25-34" "Male" "Anglo Australian" "Light"
                            "175-190" false false 201 3)
    = ([], false).
Proof.
  assert (Hn : ¬ ranges (Some 201) (Some 3)).
  { intros (a & b & [= <-] & _ & Ha & _). lia. }
  split; [exact Hn|].
  destruct (C1_submission_ranges (λ _, None)) as (_ & _ & Hrej & _).
  apply Hrej. exact Hn.
Defined.

End FormProofs.

(** ** The published aggregates *)

Module AggregateProofs.
Import Schema.

Lemma insert_aggregate_inv runs tbl v tbl' :
  insert_aggregate runs tbl v = Some tbl' →
  ∃ a, tbl' = (tbl ++ [a])%list
       ∧ v_n_people v = Some (n_people a) ∧ 50 <= n_people a.
Proof.
  unfold insert_aggregate. intros H.
  destruct (v_agg_id v) as [i|]; cbn in H; [|discriminate].
  case_bool_decide; [discriminate|].
  destruct (v_group_key v) as [k|]; cbn in H; [|discriminate].
  destruct (v_n_people v) as [p|]; cbn in H; [|discriminate].
  destruct (Sql.to_int4 p) as [p'|] eqn:Ep; cbn in H; [|discriminate].
  assert (p' = p) as ->.
  { unfold Sql.to_int4 in Ep.
    destruct ((Sql.int4_min <=? p) && (p <=? Sql.int4_max)); congruence. }
  destruct (50 <=? p) eqn:Hp; cbn in H; [|discriminate].
  destruct (v_n_trips v) as [t0|]; cbn in H; [|discriminate].
  destruct (Sql.to_int4 t0) as [t|]; cbn in H; [|discriminate].
  destruct (v_n_stops v) as [s0|]; cbn in H; [|discriminate].
  destruct (Sql.to_int4 s0) as [s|]; cbn in H; [|discriminate].
  destruct (v_rate_per_100 v) as [r|]; cbn in H; [|discriminate].
  destruct (references_model_run runs (v_model_run_id v)); cbn in H;
    [|discriminate].
  injection H as <-. eexists. split; [reflexivity|]. cbn.
  split; [reflexivity | lia].
Qed.

Lemma insert_aggregate_small runs tbl v n :
  v_n_people v = Some n → n < 50 → insert_aggregate runs tbl v = None.
Proof.
  intros Hn Hlt. destruct (insert_aggregate runs tbl v) as [tbl'|] eqn:H; [|done].
  apply insert_aggregate_inv in H as (a & _ & Ha & Hge).
  rewrite Hn in Ha. injection Ha as ->. lia.
Qed.

Lemma insert_aggregate_null runs tbl v :
  v_n_people v = None → insert_aggregate runs tbl v = None.
Proof.
  intros Hn. destruct (insert_aggregate runs tbl v) as [tbl'|] eqn:H; [|done].
  apply insert_aggregate_inv in H as (a & _ & Ha & _). congruence.
Qed.

Lemma aggregates_reachable_k_anonymous tbl :
  aggregates_reachable tbl → Forall (λ a, 50 <= n_people a) tbl.
Proof.
  induction 1 as [|runs tbl v _ IH|tbl keep _ IH].
  - constructor.
  - unfold exec_insert_aggregate.
    destruct (insert_aggregate runs tbl v) as [tbl'|] eqn:Hins; cbn; [|exact IH].
    apply insert_aggregate_inv in Hins as (a & -> & _ & Ha).
    apply Forall_app. split; [exact IH|]. constructor; [exact Ha|constructor].
  - apply Forall_forall. intros a Ha. apply list_elem_of_In in Ha.
    apply filter_In in Ha as [Ha _]. apply list_elem_of_In in Ha.
    rewrite Forall_forall in IH. apply IH, Ha.
Qed.

(** C2. Every row of [aggregates_public], and so every row a public query
    reads from it, has [n_people ≥ 50]. An [INSERT] of a cell with
    [n_people < 50] (or without [n_people]) fails whatever its other
    columns hold, statistics or [NULL]s, and leaves the table as it was:
    no part of the cell is stored. *)
Theorem C2_published_cells_k_anonymous :
  (∀ tbl a, aggregates_reachable tbl → a ∈ tbl → 50 <= n_people a)
  ∧ (∀ tbl cond a, aggregates_reachable tbl →
       a ∈ select_aggregates cond tbl → 50 <= n_people a)
  ∧ (∀ runs tbl v n, v_n_people v = Some n → n < 50 →
       exec_insert_aggregate runs tbl v = (tbl, false))
  ∧ (∀ runs tbl v, v_n_people v = None →
       exec_insert_aggregate runs tbl v = (tbl, false))
  ∧ (∀ tbl a, aggregates_reachable tbl → n_people a < 50 → a ∉ tbl).
Proof.
  assert (Hall : ∀ tbl a, aggregates_reachable tbl → a ∈ tbl → 50 <= n_people a).
  { intros tbl a Hreach Hin. apply aggregates_reachable_k_anonymous in Hreach.
    rewrite Forall_forall in Hreach. exact (Hreach a Hin). }
  split_and!.
  - exact Hall.
  - intros tbl cond a Hreach Hin. apply (Hall tbl a Hreach).
    unfold select_aggregates in Hin.
    apply list_elem_of_In, filter_In in Hin as [Hin _].
    apply list_elem_of_In, Hin.
  - intros runs tbl v n Hn Hlt. unfold exec_insert_aggregate.
    rewrite (insert_aggregate_small runs tbl v n Hn Hlt). reflexivity.
  - intros runs tbl v Hn. unfold exec_insert_aggregate.
    rewrite (insert_aggregate_null runs tbl v Hn). reflexivity.
  - intros tbl a Hreach Hlt Hin. pose proof (Hall tbl a Hreach Hin). lia.
Qed.

Lemma C2_published_cells_k_anonymous_witness :
  exec_insert_aggregate [] []
    {| v_agg_id := Some 1; v_group_key := Some "gender=Nonbinary";
       v_n_people := Some 49; v_n_trips := Some 900; v_n_stops := Some 60;
       v_rate_per_100 := Some (20 # 3)%Q; v_irr_vs_ref := None;
       v_confidence_interval_lower := None;
       v_confidence_interval_upper := None; v_model_run_id := None |}
  = ([], false).
Proof.
  destruct C2_published_cells_k_anonymous as (_ & _ & Hsmall & _).
  apply (Hsmall [] [] _ 49); [reflexivity | lia].
Defined.

End AggregateProofs.

(** ** The model registry *)

Module RegistryProofs.
Import Schema ModelRegistry.

Lemma insert_model_run_inv tbl v tbl' :
  insert_model_run tbl v = Some tbl' →
  ∃ m, tbl' = (tbl ++ [m])%list ∧ (run_id m ∉ run_id <$> tbl).
Proof.
  unfold insert_model_run. intros H.
  destruct (v_run_id v) as [i|]; cbn -[Enums.cast Sql.to_int4] in H; [|discriminate].
  case_bool_decide as Hi; [discriminate|].
  destruct (v_model_type v) as [mt|]; cbn -[Enums.cast Sql.to_int4] in H; [|discriminate].
  destruct (Enums.cast model_type_labels mt) as [m|]; cbn -[Enums.cast Sql.to_int4] in H; [|discriminate].
  destruct (v_train_rows v) as [n|]; cbn -[Enums.cast Sql.to_int4] in H; [|discriminate].
  destruct (Sql.to_int4 n) as [n'|]; cbn -[Enums.cast Sql.to_int4] in H; [|discriminate].
  injection H as <-. eexists. split; [reflexivity | exact Hi].
Qed.






End RegistryProofs.

(** ** The fraud-signal token *)

Module HashProofs.
Import Schema Spec.

#[local] Ltac Zify.zify_post_hook ::= Z.to_euclidean_division_equations.

Lemma digit_inj (a b : N) : digit a = digit b → (a mod 10 = b mod 10)%N.
Proof.
  unfold digit. intros H. apply (f_equal N_of_ascii) in H.
  rewrite !N_ascii_embedding in H by lia. lia.
Qed.

Lemma div10_inj (a b : N) :
  (a / 10 = b / 10 → a mod 10 = b mod 10 → a = b)%N.
Proof. intros. lia. Qed.

Lemma leading_digit (a k : N) : (a < 10 * k → (a / k) mod 10 = a / k)%N.
Proof.
  intros Ha. apply N.mod_small. apply N.Div0.div_lt_upper_bound. lia.
Qed.

Lemma two_digits_eq (a b : N) :
  (a < 100 → b < 100 →
   (a / 10) mod 10 = (b / 10) mod 10 → a mod 10 = b mod 10 → a = b)%N.
Proof.
  intros Ha Hb H1 H0. rewrite !leading_digit in H1 by assumption.
  apply div10_inj; assumption.
Qed.

Lemma four_digits_eq (a b : N) :
  (a < 10000 → b < 10000 →
   (a / 1000) mod 10 = (b / 1000) mod 10 →
   (a / 100) mod 10 = (b / 100) mod 10 →
   (a / 10) mod 10 = (b / 10) mod 10 → a mod 10 = b mod 10 → a = b)%N.
Proof.
  intros Ha Hb H3 H2 H1 H0. rewrite !leading_digit in H3 by assumption.
  apply div10_inj; [|exact H0].
  apply div10_inj; [|exact H1]. rewrite !N.Div0.div_div.
  change (10 * 10)%N with 100%N.
  apply div10_inj; [|exact H2]. rewrite !N.Div0.div_div. exact H3.
Qed.

Lemma date_text_inj (d1 d2 : date) :
  date_in_range d1 → date_in_range d2 → date_text d1 = date_text d2 → d1 = d2.
Proof.
  destruct d1 as [y1 m1 a1], d2 as [y2 m2 a2].
  unfold date_in_range, date_text, four_digits, two_digits.
  cbn [year month day String.append].
  intros (Hy1 & Hm1 & Ha1) (Hy2 & Hm2 & Ha2).
  intros [= Y3%digit_inj Y2%digit_inj Y1%digit_inj Y0%digit_inj
            M1%digit_inj M0%digit_inj A1%digit_inj A0%digit_inj].
  f_equal.
  - apply four_digits_eq; (assumption || lia).
  - apply two_digits_eq; (assumption || lia).
  - apply two_digits_eq; (assumption || lia).
Qed.

(** *** Strings *)

Lemma length_append (a b : string) :
  String.length (a ++ b) = (String.length a + String.length b)%nat.
Proof.
  induction a as [|c a IH]; [reflexivity|].
  change (S (String.length (a ++ b)) = S (String.length a + String.length b)).
  rewrite IH. reflexivity.
Qed.

Lemma append_inj_length (a b t t' : string) :
  String.length a = String.length b → (a ++ t = b ++ t')%string → a = b.
Proof.
  revert b. induction a as [|c a IH]; intros [|c' b]; cbn;
    try discriminate; [reflexivity|].
  intros [= Hlen] [= -> H]. f_equal. exact (IH b Hlen H).
Qed.

Lemma append_cancel_r (a b t : string) : (a ++ t = b ++ t)%string → a = b.
Proof.
  intros H. apply (append_inj_length a b t t); [|exact H].
  apply (f_equal String.length) in H. rewrite !length_append in H. lia.
Qed.

Lemma append_cancel_l (u a b : string) : (u ++ a = u ++ b)%string → a = b.
Proof.
  induction u as [|c u IH]; cbn; [auto|]. intros [= H]. exact (IH H).
Qed.


(** *** The shape of the token *)





(** *** The token does not determine the user agent *)








End HashProofs.

(** ** The submit route *)

Module RouteProofs.
Import SubmitRoute.

Lemma is_PreferNot_spec (v : json) :
  is_PreferNot v = true ↔ v = JString "PreferNot".
Proof.
  destruct v as [|b|q|s|items|fields]; cbn; try (split; discriminate).
  rewrite String.eqb_eq. split; [intros ->; reflexivity | intros [= ->]; reflexivity].
Qed.

Lemma sanitizeField_key (kv : string * json) : (sanitizeField kv).1 = kv.1.
Proof. unfold sanitizeField. destruct (is_PreferNot kv.2); reflexivity. Qed.

Lemma sanitizeField_value (kv : string * json) :
  is_PreferNot (sanitizeField kv).2 = false.
Proof.
  unfold sanitizeField. destruct (is_PreferNot kv.2) eqn:E; [reflexivity | exact E].
Qed.

Lemma property_sanitize (name : string) (fields : list (string * json)) :
  property name (sanitizeField <$> fields)
  = (λ v, if is_PreferNot v then JNull else v) <$> property name fields.
Proof.
  induction fields as [|[k v] fields IH]; [reflexivity|].
  rewrite fmap_cons. unfold sanitizeField at 1. cbn [fst snd].
  destruct (is_PreferNot v) eqn:E; cbn [property];
    destruct (String.eqb k name); cbn; rewrite ?E; auto.
Qed.

(** C9, as amended. The object forwarded to the backend has the top-level
    properties of the received body, in the same order and under the same
    names; a property whose value is exactly the string ['PreferNot'] is
    forwarded as [null], every other property is forwarded unchanged. So
    no top-level property of a forwarded payload has the value
    ['PreferNot']; in particular a [height_bracket] of ['PreferNot'], which
    [height_bracket_enum] does not include, is forwarded as [null]. *)
Theorem C9_sanitizedBody (body : json) :
  ∃ forwarded,
    sanitizedBody body = JObject forwarded
    ∧ fst <$> forwarded = fst <$> spread body
    ∧ (∀ i k, spread body !! i = Some (k, JString "PreferNot") →
         forwarded !! i = Some (k, JNull))
    ∧ (∀ i k v, spread body !! i = Some (k, v) → v ≠ JString "PreferNot" →
         forwarded !! i = Some (k, v))
    ∧ (∀ k, (k, JString "PreferNot") ∉ forwarded)
    ∧ (property "height_bracket" (spread body) = Some (JString "PreferNot") →
         property "height_bracket" forwarded = Some JNull)
    ∧ Enums.cast Enums.height_bracket_labels "PreferNot" = None.
Proof.
  exists (sanitizeField <$> spread body). split_and!.
  - reflexivity.
  - rewrite <- list_fmap_compose. apply list_fmap_ext.
    intros i kv _. apply sanitizeField_key.
  - intros i k Hi. rewrite list_lookup_fmap, Hi. reflexivity.
  - intros i k v Hi Hv. rewrite list_lookup_fmap, Hi. cbn.
    unfold sanitizeField. cbn [fst snd].
    destruct (is_PreferNot v) eqn:E; [|reflexivity].
    apply is_PreferNot_spec in E. contradiction.
  - intros k Hin. apply list_elem_of_fmap in Hin as (kv & Heq & _).
    pose proof (sanitizeField_value kv) as Hv. rewrite <- Heq in Hv.
    discriminate Hv.
  - intros H. rewrite property_sanitize, H. reflexivity.
  - reflexivity.
Qed.

Lemma C9_sanitizedBody_witness :
  property "height_bracket"
    (spread (JObject [("trips", JNumber 20); ("stops", JNumber 1);
                      ("gender", JString "Male");
                      ("height_bracket", JString "PreferNot")]))
  = Some (JString "PreferNot")
  ∧ ∃ forwarded,
      sanitizedBody (JObject [("trips", JNumber 20); ("stops", JNumber 1);
                              ("gender", JString "Male");
                              ("height_bracket", JString "PreferNot")])
      = JObject forwarded
      ∧ property "height_bracket" forwarded = Some JNull.
Proof.
  split; [reflexivity|].
  destruct (C9_sanitizedBody
              (JObject [("trips", JNumber 20); ("stops", JNumber 1);
                        ("gender", JString "Male");
                        ("height_bracket", JString "PreferNot")]))
    as (forwarded & Hf & _ & _ & _ & _ & Hh & _).
  exists forwarded. split; [exact Hf|]. apply Hh. reflexivity.
Defined.

(** C9, the claim as stated fails: a ['PreferNot'] below the top level is
    forwarded as it is. *)
Lemma C9_counterexample :
  sanitizedBody
    (JObject [("trips", JNumber 20); ("stops", JNumber 1);
              ("traits", JObject [("height_bracket", JString "PreferNot")])])
  = JObject [("trips", JNumber 20); ("stops", JNumber 1);
             ("traits", JObject [("height_bracket", JString "PreferNot")])]
  ∧ contains_value "PreferNot"
      (sanitizedBody
         (JObject [("trips", JNumber 20); ("stops", JNumber 1);
                   ("traits",
                    JObject [("height_bracket", JString "PreferNot")])]))
    = true.
Proof. split; reflexivity. Qed.

End RouteProofs.

(** ** The definitions on small inputs *)

Module Examples.
Import Schema.

Example rate_one_stop_in_twenty :
  calculate_rate_per_100 (Some 1) (Some 20) = Some (inject_Z 1 / inject_Z 20 * 100)%Q
  ∧ (inject_Z 1 / inject_Z 20 * 100 == 5)%Q.
Proof. split; reflexivity. Qed.

Example rate_null_trips : calculate_rate_per_100 (Some 1) None = None.
Proof. reflexivity. Qed.

Example empty_table_below_minimum :
  check_minimum_sample []
  = Some {| total_submissions := 0; total_stops := 0; meets_minimum := false |}.
Proof. reflexivity. Qed.

Example empty_table_stats :
  ps_total_trips (public_stats []) = None
  ∧ ps_avg_rate_per_100 (public_stats []) = None.
Proof. split; reflexivity. Qed.

Example date_text_iso :
  date_text {| year := 2025; month := 3; day := 9 |} = "2025-03-09".
Proof. reflexivity. Qed.

Example encode_hex_bytes :
  encode_hex [Byte.x00; Byte.xff; Byte.x3a] = "00ff3a".
Proof. reflexivity. Qed.

Example gender_enum_has_PreferNot :
  Enums.cast Enums.gender_labels "PreferNot" = Some Enums.GenderPreferNot.
Proof. reflexivity. Qed.

Example height_bracket_enum_lacks_PreferNot :
  Enums.cast Enums.height_bracket_labels "PreferNot" = None.
Proof. reflexivity. Qed.

Example insert_rejects_stops_above_trips :
  insert_submission []
    (sample_values 1 0 "25-34" "Male" "Other" "Light" "<160" false false 5 6)
  = None.
Proof. reflexivity. Qed.

Example insert_rejects_unknown_height :
  insert_submission []
    (sample_values 1 0 "25-34" "Male" "Other" "Light" "PreferNot"
                   false false 5 1)
  = None.
Proof. reflexivity. Qed.

Example steps_of_the_form :
  FormConfig.id <$> FormConfig.getFieldsByStep 0 = ["trips"; "stops"]
  ∧ FormConfig.id <$> FormConfig.getFieldsByStep 3
    = ["height_bracket"; "visible_disability"; "concession"]
  ∧ FormConfig.getFieldsByStep 4 = []
  ∧ FormConfig.getFieldsByStep (-1) = [].
Proof. split_and!; reflexivity. Qed.

Example initial_form_does_not_validate :
  (SubmissionForm.validateCurrentStep (λ _, None)
     SubmissionForm.initialState).1 = false.
Proof. vm_compute. reflexivity. Qed.

Example filled_form_validates :
  (SubmissionForm.validateCurrentStep (λ _, None)
     (SubmissionForm.updateField "stops" (SubmissionForm.number_value 1)
        (SubmissionForm.updateField "trips" (SubmissionForm.number_value 20)
           SubmissionForm.initialState))).1 = true.
Proof. vm_compute. reflexivity. Qed.

Example spread_of_an_array :
  SubmitRoute.sanitizedBody
    (SubmitRoute.JArray [SubmitRoute.JString "PreferNot"; SubmitRoute.JNull])
  = SubmitRoute.JObject [("0", SubmitRoute.JNull); ("1", SubmitRoute.JNull)].
Proof. reflexivity. Qed.

End Examples.

(** * Further properties of the code *)

(** ** The table [submissions] and the view [public_stats] *)

Module SubmissionsExtras.
Import Enums Schema Spec.

Lemma filter_keys_NoDup {A} (key : A → uuid) (keep : A → bool) (l : list A) :
  NoDup (key <$> l) → NoDup (key <$> List.filter keep l).
Proof.
  induction l as [|x l IH]; [intros _; constructor|].
  rewrite fmap_cons, NoDup_cons. intros [Hx Hl]. cbn [List.filter].
  destruct (keep x); [|exact (IH Hl)].
  rewrite fmap_cons, NoDup_cons. split; [|exact (IH Hl)].
  intros Hin. apply Hx. apply list_elem_of_fmap in Hin as (y & -> & Hy).
  apply list_elem_of_fmap. exists y. split; [reflexivity|].
  apply list_elem_of_In in Hy. apply filter_In in Hy as [Hy _].
  apply list_elem_of_In, Hy.
Qed.

Lemma insert_submission_key_taken tbl v i :
  v_id v = Some i → i ∈ id <$> tbl → insert_submission tbl v = None.
Proof.
  intros Hv Hin. unfold insert_submission. rewrite Hv. cbn -[cast].
  rewrite bool_decide_eq_true_2 by exact Hin. reflexivity.
Qed.

(** X1. The primary key of [submissions]: in every table the database can
    hold the identifiers of the rows are pairwise distinct, and an
    [INSERT] whose [id] is already in the table, or is [NULL], fails and
    leaves the table as it was. *)
Theorem submissions_primary_key (tbl : list submission) :
  submissions_reachable tbl →
  NoDup (id <$> tbl)
  ∧ (∀ v i, v_id v = Some i → i ∈ id <$> tbl →
       exec_insert_submission tbl v = (tbl, false))
  ∧ (∀ v, v_id v = None → exec_insert_submission tbl v = (tbl, false)).
Proof.
  intros Hreach. split_and!.
  - induction Hreach as [|tbl v _ IH|tbl keep _ IH].
    + constructor.
    + unfold exec_insert_submission.
      destruct (insert_submission tbl v) as [tbl'|] eqn:E; cbn [fst];
        [|exact IH].
      apply TableProofs.insert_submission_inv in E as (r & -> & _ & Hr & _).
      rewrite fmap_app. apply NoDup_app. split_and!; [exact IH| |].
      * intros x Hx Hx'. apply list_elem_of_singleton in Hx'. subst x.
        exact (Hr Hx).
      * apply NoDup_singleton.
    + apply filter_keys_NoDup, IH.
  - intros v i Hv Hin. unfold exec_insert_submission.
    rewrite (insert_submission_key_taken tbl v i Hv Hin). reflexivity.
  - intros v Hv. unfold exec_insert_submission, insert_submission.
    rewrite Hv. reflexivity.
Qed.

Lemma submissions_primary_key_witness :
  submissions_reachable [plain_row 7 20 1]
  ∧ exec_insert_submission [plain_row 7 20 1]
      (sample_values 7 0 "45+" "Female" "Other" "Dark" ">190" true true 30 3)
    = ([plain_row 7 20 1], false).
Proof.
  assert (H : submissions_reachable [plain_row 7 20 1]).
  { change [plain_row 7 20 1]
      with (exec_insert_submission []
              {| v_id := Some 7; v_created_at := None; v_age_bracket := None;
                 v_gender := None; v_ethnicity := None; v_skin_tone := None;
                 v_height_bracket := None; v_visible_disability := None;
                 v_concession := None; v_trips := Some 20; v_stops := Some 1;
                 v_user_agent_hash := None |}).1.
    apply sr_insert, sr_empty. }
  split; [exact H|].
  destruct (submissions_primary_key _ H) as (_ & Htaken & _).
  apply (Htaken _ 7); [reflexivity|]. apply list_elem_of_singleton. reflexivity.
Defined.

(** *** [public_stats] after an insert *)

Lemma sum_snoc (l : list Z) (x : Z) :
  fold_right Z.add 0 (l ++ [x]) = fold_right Z.add 0 l + x.
Proof. induction l as [|y l IH]; cbn; [lia | rewrite IH; lia]. Qed.

Lemma sql_sum_snoc (l : list Z) (x : Z) :
  sql_sum (l ++ [x]) = Some (coalesce (sql_sum l) 0 + x).
Proof.
  destruct l as [|y l]; [cbn; f_equal; lia|].
  change (Some (fold_right Z.add 0 ((y :: l) ++ [x]))
          = Some (fold_right Z.add 0 (y :: l) + x)).
  rewrite sum_snoc. reflexivity.
Qed.

(** The totals of the view after an accepted insert. *)
Lemma insert_submission_totals tbl v tbl' :
  insert_submission tbl v = Some tbl' →
  ∃ r,
    tbl' = (tbl ++ [r])%list
    ∧ v_trips v = Some (trips r) ∧ v_stops v = Some (stops r)
    ∧ ps_total_submissions (public_stats tbl')
      = ps_total_submissions (public_stats tbl) + 1
    ∧ ps_total_trips (public_stats tbl')
      = Some (coalesce (ps_total_trips (public_stats tbl)) 0 + trips r)
    ∧ ps_total_stops (public_stats tbl')
      = Some (coalesce (ps_total_stops (public_stats tbl)) 0 + stops r).
Proof.
  intros H.
  apply TableProofs.insert_submission_inv in H as (r & -> & _ & _ & Ht & Hs & _).
  exists r. split_and!; [reflexivity|exact Ht|exact Hs|..];
    unfold public_stats;
    cbn [ps_total_submissions ps_total_trips ps_total_stops].
  - unfold sql_count. rewrite length_app. cbn [length]. lia.
  - rewrite fmap_app. cbn [fmap list_fmap]. apply sql_sum_snoc.
  - rewrite fmap_app. cbn [fmap list_fmap]. apply sql_sum_snoc.
Qed.

(** X2. The totals of [public_stats] are additive: an accepted [INSERT]
    raises [total_submissions] by one and [total_trips], [total_stops] by
    the trips and stops of the new row (an empty table counting as zero),
    and after it the totals are not [NULL]. *)
Theorem public_stats_after_insert tbl v tbl' :
  insert_submission tbl v = Some tbl' →
  ∃ r,
    tbl' = (tbl ++ [r])%list
    ∧ v_trips v = Some (trips r) ∧ v_stops v = Some (stops r)
    ∧ ps_total_submissions (public_stats tbl')
      = ps_total_submissions (public_stats tbl) + 1
    ∧ ps_total_trips (public_stats tbl')
      = Some (coalesce (ps_total_trips (public_stats tbl)) 0 + trips r)
    ∧ ps_total_stops (public_stats tbl')
      = Some (coalesce (ps_total_stops (public_stats tbl)) 0 + stops r).
Proof. exact (insert_submission_totals tbl v tbl'). Qed.

Lemma public_stats_after_insert_witness :
  ∃ tbl' r,
    insert_submission [plain_row 7 20 1]
      (sample_values 8 0 "45+" "Female" "Other" "Dark" ">190" true true 30 3)
    = Some tbl'
    ∧ ps_total_trips (public_stats tbl')
      = Some (coalesce (ps_total_trips (public_stats [plain_row 7 20 1])) 0
              + trips r).
Proof.
  destruct (insert_submission [plain_row 7 20 1]
    (sample_values 8 0 "45+" "Female" "Other" "Dark" ">190" true true 30 3))
    as [tbl'|] eqn:E; [|vm_compute in E; discriminate].
  destruct (public_stats_after_insert _ _ _ E) as (r & _ & _ & _ & _ & Ht & _).
  exists tbl', r. split; [reflexivity | exact Ht].
Defined.

End SubmissionsExtras.

(** ** Rates, the activation gate and the sample data *)

Module StatsExtras.
Import Enums Schema Spec.






(** *** The activation gate under inserts *)

Lemma check_minimum_sample_inv tbl row :
  check_minimum_sample tbl = Some row →
  total_submissions row = sql_count tbl
  ∧ total_stops row = coalesce (sql_sum (stops <$> tbl)) 0
  ∧ meets_minimum row
    = (500 <=? total_submissions row) && (100 <=? total_stops row).
Proof.
  unfold check_minimum_sample, Sql.to_int4. intros H.
  destruct ((Sql.int4_min <=? sql_count tbl) && (sql_count tbl <=? Sql.int4_max));
    cbn in H; [|discriminate].
  destruct ((Sql.int4_min <=? coalesce (sql_sum (stops <$> tbl)) 0)
            && (coalesce (sql_sum (stops <$> tbl)) 0 <=? Sql.int4_max));
    cbn in H; [|discriminate].
  injection H as <-. cbn. auto.
Qed.

(** X4. The activation gate never closes on an insert: when
    [check_minimum_sample] answers before and after an accepted [INSERT],
    the count has grown by one, the stop total has not shrunk, and a gate
    that was met is still met. *)
Theorem activation_gate_monotone tbl v tbl' row row' :
  insert_submission tbl v = Some tbl' →
  check_minimum_sample tbl = Some row →
  check_minimum_sample tbl' = Some row' →
  total_submissions row' = total_submissions row + 1
  ∧ total_stops row <= total_stops row'
  ∧ (meets_minimum row = true → meets_minimum row' = true).
Proof.
  intros Hins Hrow Hrow'.
  destruct (SubmissionsExtras.insert_submission_totals _ _ _ Hins)
    as (r & -> & _ & _ & Hcnt & _ & Hstops).
  apply TableProofs.insert_submission_inv in Hins
    as (r' & Heq & _ & _ & Ht & Hs & (a & b & Ha & Hb & Hr)).
  apply app_inv_head in Heq. injection Heq as <-.
  assert (b = stops r) as -> by congruence.
  apply check_minimum_sample_inv in Hrow as (Hc & Hst & Hm).
  apply check_minimum_sample_inv in Hrow' as (Hc' & Hst' & Hm').
  unfold public_stats in Hcnt, Hstops.
  cbn [ps_total_submissions ps_total_stops] in Hcnt, Hstops.
  rewrite Hstops in Hst'. cbn [coalesce] in Hst'.
  assert (E1 : total_submissions row' = total_submissions row + 1) by lia.
  assert (E2 : total_stops row <= total_stops row') by lia.
  split_and!; [exact E1 | exact E2 |].
  rewrite Hm, Hm', !andb_true_iff, !Z.leb_le. lia.
Qed.

Lemma activation_gate_monotone_witness :
  ∃ tbl' row row',
    insert_submission [plain_row 7 20 1]
      (sample_values 8 0 "45+" "Female" "Other" "Dark" ">190" true true 30 3)
    = Some tbl'
    ∧ check_minimum_sample [plain_row 7 20 1] = Some row
    ∧ check_minimum_sample tbl' = Some row'
    ∧ total_submissions row' = total_submissions row + 1
    ∧ total_stops row <= total_stops row'.
Proof.
  destruct (insert_submission [plain_row 7 20 1]
    (sample_values 8 0 "45+" "Female" "Other" "Dark" ">190" true true 30 3))
    as [tbl'|] eqn:E; [|vm_compute in E; discriminate].
  destruct (check_minimum_sample [plain_row 7 20 1]) as [row|] eqn:E1;
    [|vm_compute in E1; discriminate].
  destruct (check_minimum_sample tbl') as [row'|] eqn:E2.
  - exists tbl', row, row'.
    destruct (activation_gate_monotone _ _ _ _ _ E E1 E2) as (H1 & H2 & _).
    split_and!; [first [reflexivity | eassumption]..|exact H1|exact H2].
  - vm_compute in E. injection E as <-. vm_compute in E2. discriminate.
Defined.

End StatsExtras.

(** ** Timestamps of the view, the sample data, the foreign key *)

Module SchemaExtras.
Import Enums Schema Spec.

Lemma fold_min_le (v : Z) (vs : list Z) (x : Z) :
  x ∈ v :: vs → fold_right Z.min v vs <= x.
Proof.
  induction vs as [|y vs IH]; cbn [fold_right].
  - intros ->%list_elem_of_singleton. lia.
  - rewrite !elem_of_cons. intros [->|[->|H]].
    + assert (fold_right Z.min v vs <= v) by (apply IH; left). lia.
    + lia.
    + assert (fold_right Z.min v vs <= x) by (apply IH; right; exact H). lia.
Qed.

Lemma fold_max_ge (v : Z) (vs : list Z) (x : Z) :
  x ∈ v :: vs → x <= fold_right Z.max v vs.
Proof.
  induction vs as [|y vs IH]; cbn [fold_right].
  - intros ->%list_elem_of_singleton. lia.
  - rewrite !elem_of_cons. intros [->|[->|H]].
    + assert (v <= fold_right Z.max v vs) by (apply IH; left). lia.
    + lia.
    + assert (x <= fold_right Z.max v vs) by (apply IH; right; exact H). lia.
Qed.

(** X5. [first_submission] and [last_submission] of [public_stats] bracket
    every timestamp of the table: a row with a [created_at] makes both
    present, the first at or before it and the last at or after it; when no
    row has a [created_at] (or there is no row) both are [NULL]. *)
Theorem first_and_last_submission (tbl : list submission) :
  (∀ r c, r ∈ tbl → created_at r = Some c →
     ∃ a b, ps_first_submission (public_stats tbl) = Some a
            ∧ ps_last_submission (public_stats tbl) = Some b
            ∧ a <= c <= b)
  ∧ ((∀ r, r ∈ tbl → created_at r = None) →
     ps_first_submission (public_stats tbl) = None
     ∧ ps_last_submission (public_stats tbl) = None).
Proof.
  unfold public_stats. cbn [ps_first_submission ps_last_submission].
  unfold sql_min, sql_max.
  match goal with |- context [omap ?f ?l] => set (ts := omap f l) end.
  split.
  - intros r c Hr Hc.
    assert (Hin : c ∈ ts).
    { unfold ts. apply list_elem_of_omap. exists (Some c).
      split; [|reflexivity]. apply list_elem_of_fmap. exists r. auto. }
    destruct ts as [|v vs].
    + apply elem_of_nil in Hin. destruct Hin.
    + exists (fold_right Z.min v vs), (fold_right Z.max v vs).
      split_and!; [reflexivity..| |].
      * apply fold_min_le, Hin.
      * apply fold_max_ge, Hin.
  - intros Hnone.
    destruct ts as [|v vs] eqn:E; [auto|].
    assert (Hv : v ∈ ts) by (rewrite E; left).
    unfold ts in Hv. apply list_elem_of_omap in Hv as (o & Ho & ->).
    apply list_elem_of_fmap in Ho as (r & Hc & Hr).
    rewrite (Hnone r Hr) in Hc. discriminate.
Qed.

Lemma first_and_last_submission_witness :
  ∃ a b,
    ps_first_submission
      (public_stats [plain_row 1 20 1;
                     {| id := 2; created_at := Some 50; age_bracket := None;
                        gender := None; ethnicity := None; skin_tone := None;
                        height_bracket := None; visible_disability := None;
                        concession := None; trips := 5; stops := 0;
                        user_agent_hash := None |}]) = Some a
    ∧ a <= 50 <= b.
Proof.
  pose proof (proj1 (first_and_last_submission
    [plain_row 1 20 1;
     {| id := 2; created_at := Some 50; age_bracket := None;
        gender := None; ethnicity := None; skin_tone := None;
        height_bracket := None; visible_disability := None;
        concession := None; trips := 5; stops := 0;
        user_agent_hash := None |}])) as H.
  destruct (H {| id := 2; created_at := Some 50; age_bracket := None;
                 gender := None; ethnicity := None; skin_tone := None;
                 height_bracket := None; visible_disability := None;
                 concession := None; trips := 5; stops := 0;
                 user_agent_hash := None |} 50)
    as (a & b & Ha & _ & Hab); [repeat constructor | reflexivity |].
  exists a, b. split; [exact Ha | exact Hab].
Defined.

(** *** [insert_sample_data] on any table *)

Lemma fresh_app (i : uuid) (tbl : list submission) (r : submission) :
  (i ∉ id <$> (tbl ++ [r])%list) ↔ (i ∉ id <$> tbl) ∧ i ≠ id r.
Proof.
  rewrite fmap_app, elem_of_app. cbn. rewrite list_elem_of_singleton. tauto.
Qed.

(** X6. [insert_sample_data] is all or nothing. It succeeds exactly when
    the four generated identifiers are pairwise distinct and none is in
    the table; it then appends four rows, with these identifiers and the
    trips 20, 25, 15, 30 and stops 1, 2, 0, 3, after the rows that were
    there. *)
Theorem insert_sample_data_all_or_nothing i1 i2 i3 i4 now tbl :
  (is_Some (insert_sample_data i1 i2 i3 i4 now tbl)
   ↔ NoDup [i1; i2; i3; i4] ∧ Forall (λ i, i ∉ id <$> tbl) [i1; i2; i3; i4])
  ∧ (∀ tbl', insert_sample_data i1 i2 i3 i4 now tbl = Some tbl' →
       ∃ rows, tbl' = (tbl ++ rows)%list
               ∧ id <$> rows = [i1; i2; i3; i4]
               ∧ trips <$> rows = [20; 25; 15; 30]
               ∧ stops <$> rows = [1; 2; 0; 3]).
Proof.
  assert (Hinv : ∀ tbl', insert_sample_data i1 i2 i3 i4 now tbl = Some tbl' →
    ∃ r1 r2 r3 r4, tbl' = (tbl ++ [r1; r2; r3; r4])%list
      ∧ (id r1 = i1 ∧ id r2 = i2 ∧ id r3 = i3 ∧ id r4 = i4)
      ∧ (trips r1 = 20 ∧ trips r2 = 25 ∧ trips r3 = 15 ∧ trips r4 = 30)
      ∧ (stops r1 = 1 ∧ stops r2 = 2 ∧ stops r3 = 0 ∧ stops r4 = 3)
      ∧ (i1 ∉ id <$> tbl) ∧ (i2 ∉ id <$> (tbl ++ [r1])%list)
      ∧ (i3 ∉ id <$> ((tbl ++ [r1]) ++ [r2])%list)
      ∧ (i4 ∉ id <$> (((tbl ++ [r1]) ++ [r2]) ++ [r3])%list)).
  { intros tbl' H. unfold insert_sample_data in H.
    destruct (insert_submission tbl _) as [t1|] eqn:E1; [|discriminate].
    cbn [mbind option_bind] in H.
    destruct (insert_submission t1 _) as [t2|] eqn:E2; [|discriminate].
    cbn [mbind option_bind] in H.
    destruct (insert_submission t2 _) as [t3|] eqn:E3; [|discriminate].
    cbn [mbind option_bind] in H.
    apply TableProofs.insert_submission_inv in E1
      as (r1 & -> & I1 & F1 & T1 & S1 & _).
    apply TableProofs.insert_submission_inv in E2
      as (r2 & -> & I2 & F2 & T2 & S2 & _).
    apply TableProofs.insert_submission_inv in E3
      as (r3 & -> & I3 & F3 & T3 & S3 & _).
    apply TableProofs.insert_submission_inv in H
      as (r4 & -> & I4 & F4 & T4 & S4 & _).
    cbn in I1, I2, I3, I4, T1, T2, T3, T4, S1, S2, S3, S4.
    exists r1, r2, r3, r4.
    split; [rewrite <- !app_assoc; reflexivity|].
    assert (id r1 = i1) by congruence. assert (id r2 = i2) by congruence.
    assert (id r3 = i3) by congruence. assert (id r4 = i4) by congruence.
    subst i1 i2 i3 i4.
    split_and!; try reflexivity; try congruence; assumption. }
  split.
  - split.
    + intros [tbl' H].
      destruct (Hinv tbl' H)
        as (r1 & r2 & r3 & r4 & _ & (<- & <- & <- & <-) & _ & _
            & F1 & F2 & F3 & F4).
      apply fresh_app in F2 as [F2 N21].
      apply fresh_app in F3 as [F3 N32]. apply fresh_app in F3 as [F3 N31].
      apply fresh_app in F4 as [F4 N43]. apply fresh_app in F4 as [F4 N42].
      apply fresh_app in F4 as [F4 N41].
      split.
      * repeat (constructor;
                [rewrite ?not_elem_of_cons; split_and?;
                 try apply not_elem_of_nil; congruence|]).
        constructor.
      * repeat constructor; assumption.
    + intros [Hnd Hfresh].
      apply NoDup_cons in Hnd as [H1 Hnd]. apply NoDup_cons in Hnd as [H2 Hnd].
      apply NoDup_cons in Hnd as [H3 _].
      assert (N12 : i1 ≠ i2) by (intros ->; apply H1; repeat constructor).
      assert (N13 : i1 ≠ i3) by (intros ->; apply H1; repeat constructor).
      assert (N14 : i1 ≠ i4) by (intros ->; apply H1; repeat constructor).
      assert (N23 : i2 ≠ i3) by (intros ->; apply H2; repeat constructor).
      assert (N24 : i2 ≠ i4) by (intros ->; apply H2; repeat constructor).
      assert (N34 : i3 ≠ i4) by (intros ->; apply H3; repeat constructor).
      apply Forall_cons in Hfresh as [F1 Hfresh].
      apply Forall_cons in Hfresh as [F2 Hfresh].
      apply Forall_cons in Hfresh as [F3 Hfresh].
      apply Forall_cons in Hfresh as [F4 _].
      unfold insert_sample_data.
      erewrite AggregateRateProofs.insert_sample_values;
        [|exact F1|reflexivity..|lia|lia].
      cbn [mbind option_bind].
      erewrite AggregateRateProofs.insert_sample_values;
        [|apply fresh_app; cbn; split; [exact F2|congruence]
         |reflexivity..|lia|lia].
      cbn [mbind option_bind].
      erewrite AggregateRateProofs.insert_sample_values;
        [|apply fresh_app; split; [apply fresh_app; split|];
          [exact F3|cbn; congruence..]
         |reflexivity..|lia|lia].
      cbn [mbind option_bind].
      erewrite AggregateRateProofs.insert_sample_values;
        [|apply fresh_app; split;
          [apply fresh_app; split; [apply fresh_app; split|]|];
          [exact F4|cbn; congruence..]
         |reflexivity..|lia|lia].
      eexists. reflexivity.
  - intros tbl' H.
    destruct (Hinv tbl' H)
      as (r1 & r2 & r3 & r4 & -> & (<- & <- & <- & <-)
          & (T1 & T2 & T3 & T4) & (S1 & S2 & S3 & S4) & _).
    exists [r1; r2; r3; r4]. cbn. rewrite T1, T2, T3, T4, S1, S2, S3, S4. auto.
Qed.

Lemma insert_sample_data_all_or_nothing_witness :
  insert_sample_data 1 2 3 1 0 [] = None
  ∧ is_Some (insert_sample_data 1 2 3 4 0 [plain_row 9 20 1]).
Proof.
  split; [reflexivity|].
  apply (insert_sample_data_all_or_nothing 1 2 3 4 0 [plain_row 9 20 1]).
  split.
  - repeat (constructor; [rewrite ?elem_of_cons, ?elem_of_nil; lia|]).
    constructor.
  - repeat constructor; cbn; rewrite list_elem_of_singleton; lia.
Defined.

End SchemaExtras.

(** ** The foreign key of [aggregates_public] *)

Module ForeignKeyExtras.
Import Schema Database.

Lemma insert_aggregate_reference runs tbl v tbl' :
  insert_aggregate runs tbl v = Some tbl' →
  ∃ a, tbl' = (tbl ++ [a])%list
       ∧ model_run_id a = v_model_run_id v
       ∧ references_model_run runs (v_model_run_id v) = true.
Proof.
  unfold insert_aggregate. intros H.
  destruct (v_agg_id v) as [i|]; cbn -[Sql.to_int4] in H; [|discriminate].
  case_bool_decide; [discriminate|].
  destruct (v_group_key v) as [k|]; cbn -[Sql.to_int4] in H; [|discriminate].
  destruct (v_n_people v) as [p0|]; cbn -[Sql.to_int4] in H; [|discriminate].
  destruct (Sql.to_int4 p0) as [p|]; cbn -[Sql.to_int4] in H; [|discriminate].
  destruct (50 <=? p); cbn -[Sql.to_int4] in H; [|discriminate].
  destruct (v_n_trips v) as [t0|]; cbn -[Sql.to_int4] in H; [|discriminate].
  destruct (Sql.to_int4 t0) as [t|]; cbn -[Sql.to_int4] in H; [|discriminate].
  destruct (v_n_stops v) as [s0|]; cbn -[Sql.to_int4] in H; [|discriminate].
  destruct (Sql.to_int4 s0) as [s|]; cbn -[Sql.to_int4] in H; [|discriminate].
  destruct (v_rate_per_100 v) as [r|]; cbn in H; [|discriminate].
  destruct (references_model_run runs (v_model_run_id v)) eqn:E; cbn in H;
    [|discriminate].
  injection H as <-. eexists. split; [reflexivity|]. cbn. auto.
Qed.

Lemma references_spec runs (r : option uuid) :
  references_model_run runs r = true
  ↔ r = None ∨ ∃ m, m ∈ runs ∧ r = Some (run_id m).
Proof.
  destruct r as [i|]; cbn.
  - rewrite bool_decide_eq_true, list_elem_of_fmap. split.
    + intros (m & -> & Hm). right. eauto.
    + intros [|(m & Hm & [= ->])]; [discriminate|]. eauto.
  - split; auto.
Qed.

Lemma referenced_spec aggs m :
  referenced aggs m = true ↔ ∃ a, a ∈ aggs ∧ model_run_id a = Some (run_id m).
Proof.
  unfold referenced. rewrite existsb_exists. split.
  - intros (a & Ha & Hb). exists a. rewrite list_elem_of_In.
    apply bool_decide_eq_true in Hb. auto.
  - intros (a & Ha & Hb). exists a. rewrite <- list_elem_of_In.
    split; [exact Ha|]. apply bool_decide_eq_true. exact Hb.
Qed.

Lemma delete_model_runs_inv keep d d' :
  delete_model_runs keep d = Some d' →
  d' = {| model_runs := List.filter keep (model_runs d);
          aggregates_public := aggregates_public d |}
  ∧ ∀ m, m ∈ model_runs d → referenced (aggregates_public d) m = true →
         keep m = true.
Proof.
  unfold delete_model_runs.
  destruct (existsb _ (model_runs d)) eqn:E; [discriminate|].
  intros [= <-]. split; [reflexivity|]. intros m Hm Href.
  destruct (keep m) eqn:Hk; [reflexivity|].
  assert (existsb (λ m, negb (keep m) && referenced (aggregates_public d) m)
                  (model_runs d) = true) as Hex; [|congruence].
  apply existsb_exists. exists m. rewrite <- list_elem_of_In.
  split; [exact Hm|]. rewrite Hk, Href. reflexivity.
Qed.

(** X7. Referential integrity. After any script of inserts and deletes on
    [model_runs] and [aggregates_public], every stored aggregate has a
    [model_run_id] that is [NULL] or the key of a stored run; an aggregate
    that names an unknown run is not inserted, and a [DELETE] on
    [model_runs] that would remove a referenced run fails and removes
    nothing. *)
Theorem aggregates_reference_stored_runs (script : list statement) :
  (∀ a, a ∈ aggregates_public (run script) →
     model_run_id a = None
     ∨ ∃ m, m ∈ model_runs (run script) ∧ model_run_id a = Some (run_id m))
  ∧ (∀ v i, v_model_run_id v = Some i →
       (i ∉ run_id <$> model_runs (run script)) →
       exec (run script) (InsertAggregate v) = run script)
  ∧ (∀ keep m a, m ∈ model_runs (run script) → keep m = false →
       a ∈ aggregates_public (run script) →
       model_run_id a = Some (run_id m) →
       exec (run script) (DeleteRuns keep) = run script).
Proof.
  assert (Hinv : ∀ a, a ∈ aggregates_public (run script) →
            references_model_run (model_runs (run script)) (model_run_id a)
            = true).
  { unfold run.
    assert (H : ∀ d, (∀ a, a ∈ aggregates_public d →
                        references_model_run (model_runs d) (model_run_id a)
                        = true) →
              ∀ a, a ∈ aggregates_public (foldl exec d script) →
                references_model_run (model_runs (foldl exec d script))
                  (model_run_id a) = true).
    { induction script as [|s script IH]; intros d Hd; [exact Hd|].
      cbn [foldl]. apply IH. clear IH. destruct s as [v|v|keep|keep];
        cbn [exec].
      - destruct (insert_model_run (model_runs d) v) as [runs|] eqn:E;
          [|exact Hd].
        apply RegistryProofs.insert_model_run_inv in E as (m & -> & _).
        cbn [model_runs aggregates_public]. intros a Ha.
        apply references_spec. apply Hd, references_spec in Ha
          as [Hn|(m' & Hm' & Heq)]; [auto|].
        right. exists m'. split; [|exact Heq]. apply elem_of_app. auto.
      - cbn [model_runs aggregates_public]. unfold exec_insert_aggregate.
        destruct (insert_aggregate _ _ v) as [tbl'|] eqn:E; cbn [fst];
          [|exact Hd].
        apply insert_aggregate_reference in E as (a0 & -> & Ha0 & Href).
        intros a Ha. apply elem_of_app in Ha as [Ha|Ha]; [exact (Hd a Ha)|].
        apply list_elem_of_singleton in Ha. subst a. rewrite Ha0. exact Href.
      - cbn [model_runs aggregates_public]. intros a Ha.
        apply list_elem_of_In, filter_In in Ha as [Ha _].
        apply Hd, list_elem_of_In, Ha.
      - destruct (delete_model_runs keep d) as [d'|] eqn:E; cbn [default];
          [|exact Hd].
        apply delete_model_runs_inv in E as [-> Hkeep].
        cbn [model_runs aggregates_public]. intros a Ha.
        apply references_spec. pose proof (Hd a Ha) as Href.
        apply references_spec in Href as [Hn|(m & Hm & Heq)]; [auto|].
        right. exists m. split; [|exact Heq].
        apply list_elem_of_In, filter_In. split; [apply list_elem_of_In, Hm|].
        apply (Hkeep m Hm). apply referenced_spec. eauto. }
    apply H. cbn. intros a Ha. apply elem_of_nil in Ha. destruct Ha. }
  split_and!.
  - intros a Ha. apply references_spec, Hinv, Ha.
  - intros v i Hv Hi. cbn [exec]. unfold exec_insert_aggregate.
    destruct (insert_aggregate _ _ v) as [tbl'|] eqn:E.
    + apply insert_aggregate_reference in E as (a0 & _ & _ & Href).
      rewrite Hv in Href. cbn in Href. apply bool_decide_eq_true in Href.
      contradiction.
    + cbn [fst]. destruct (run script); reflexivity.
  - intros keep m a Hm Hk Ha Href. cbn [exec].
    destruct (delete_model_runs keep (run script)) as [d'|] eqn:E;
      [|reflexivity].
    apply delete_model_runs_inv in E as [_ Hkeep].
    assert (keep m = true); [|congruence].
    apply (Hkeep m Hm). apply referenced_spec. eauto.
Qed.

Lemma aggregates_reference_stored_runs_witness :
  exec (run [InsertRun (ModelRegistry.plain_run 1)])
    (InsertAggregate
       {| v_agg_id := Some 1; v_group_key := Some "gender=Female";
          v_n_people := Some 60; v_n_trips := Some 900; v_n_stops := Some 60;
          v_rate_per_100 := Some (20 # 3)%Q; v_irr_vs_ref := None;
          v_confidence_interval_lower := None;
          v_confidence_interval_upper := None;
          v_model_run_id := Some 2 |})
  = run [InsertRun (ModelRegistry.plain_run 1)].
Proof.
  apply (proj1 (proj2 (aggregates_reference_stored_runs
                         [InsertRun (ModelRegistry.plain_run 1)])) _ 2).
  - reflexivity.
  - vm_compute. intros H. apply list_elem_of_singleton in H. discriminate.
Defined.

End ForeignKeyExtras.

(** ** The input of the digest *)

Module HashExtras.
Import Schema Spec.

Lemma date_text_length (d : date) : String.length (date_text d) = 10%nat.
Proof. destruct d. reflexivity. Qed.

(** X8. The salted input of the digest determines the user agent and the
    day: two inputs are equal only when both the user agents and the
    (four-digit-year) dates are, so no two different pairs of user agent
    and day are hashed as the same text. *)
Theorem salted_input_injective (ua1 ua2 : string) (d1 d2 : date) :
  date_in_range d1 → date_in_range d2 →
  salted_input ua1 d1 = salted_input ua2 d2 →
  ua1 = ua2 ∧ d1 = d2.
Proof.
  unfold salted_input. intros H1 H2 H.
  apply HashProofs.append_cancel_r in H.
  assert (Hua : ua1 = ua2).
  { apply (HashProofs.append_inj_length ua1 ua2 (date_text d1) (date_text d2));
      [|exact H].
    apply (f_equal String.length) in H.
    rewrite !HashProofs.length_append, !date_text_length in H. lia. }
  subst ua2. split; [reflexivity|].
  apply HashProofs.append_cancel_l in H.
  exact (HashProofs.date_text_inj d1 d2 H1 H2 H).
Qed.

Lemma salted_input_injective_witness :
  date_in_range {| year := 2025; month := 3; day := 9 |}
  ∧ (salted_input "Mozilla/5.0" {| year := 2025; month := 3; day := 9 |}
     = salted_input "Mozilla/5.0" {| year := 2025; month := 3; day := 9 |} →
     "Mozilla/5.0" = "Mozilla/5.0").
Proof.
  assert (H : date_in_range {| year := 2025; month := 3; day := 9 |}).
  { unfold date_in_range. cbn. lia. }
  split; [exact H|]. intros E.
  exact (proj1 (salted_input_injective _ _ _ _ H H E)).
Defined.

End HashExtras.

(** ** The steps of the form and its validation *)

Module FormExtras.
Import FormConfig SubmissionForm Spec.

(** X9. The steps of the form partition its fields: every field of
    [formFields] is shown on exactly one step, one of the steps 0 to
    [totalSteps - 1]; for any other index, negative or beyond the last
    step, [getFieldsByStep] returns no field. *)
Theorem steps_partition_fields :
  (∀ field, field ∈ formFields →
     ∃ step, 0 <= step <= totalSteps - 1
             ∧ field ∈ getFieldsByStep step
             ∧ ∀ step', field ∈ getFieldsByStep step' → step' = step)
  ∧ (∀ step, step < 0 ∨ totalSteps <= step → getFieldsByStep step = [])
  ∧ (∀ step, 0 <= step <= totalSteps - 1 → getFieldsByStep step ≠ []).
Proof.
  assert (Hstep : ∀ step ids, stepsConfig_at step = Some ids →
            (step = 0 ∧ ids = ["trips"; "stops"])
            ∨ (step = 1 ∧ ids = ["age_bracket"; "gender"])
            ∨ (step = 2 ∧ ids = ["ethnicity"; "skin_tone"])
            ∨ (step = 3
               ∧ ids = ["height_bracket"; "visible_disability"; "concession"])).
  { intros step ids. unfold stepsConfig_at.
    destruct (0 <=? step) eqn:E; [|discriminate].
    destruct (Z.to_nat step) as [|[|[|[|n]]]] eqn:En; cbn;
      intros [= <-]; [left|right; left|right; right; left|right; right; right];
      (split; [lia | reflexivity]). }
  split_and!.
  - intros field Hin. unfold formFields in Hin.
    rewrite !elem_of_cons, elem_of_nil in Hin.
    assert (Huniq : ∀ step0 : Z, field ∈ getFieldsByStep step0 →
              ∀ step', field ∈ getFieldsByStep step' →
              ∃ ids ids', stepsConfig_at step0 = Some ids
                          ∧ stepsConfig_at step' = Some ids'
                          ∧ id field ∈ ids ∧ id field ∈ ids').
    { intros step0 H0 step' H'.
      apply FormProofs.getFieldsByStep_inv in H0 as (_ & ids & E & Hi).
      apply FormProofs.getFieldsByStep_inv in H' as (_ & ids' & E' & Hi').
      eauto 6. }
    assert (Hside : ∀ step0 : Z, 0 <= step0 <= 3 →
              field ∈ getFieldsByStep step0 →
              ∃ step, 0 <= step <= totalSteps - 1
                      ∧ field ∈ getFieldsByStep step
                      ∧ ∀ step', field ∈ getFieldsByStep step' → step' = step).
    { intros step0 Hr H0. exists step0. split; [unfold totalSteps; lia|].
      split; [exact H0|]. intros step' H'.
      destruct (Huniq step0 H0 step' H') as (ids & ids' & E & E' & Hi & Hi').
      apply Hstep in E, E'.
      destruct E as [[-> ->]|[[-> ->]|[[-> ->]|[-> ->]]]];
        destruct E' as [[-> ->]|[[-> ->]|[[-> ->]|[-> ->]]]];
        try reflexivity; exfalso;
        repeat (apply elem_of_cons in Hi as [Hi|Hi]);
        try (apply elem_of_nil in Hi; exact Hi);
        rewrite Hi in Hi'; revert Hi';
        apply (proj1 (bool_decide_eq_false _)); vm_compute; reflexivity. }
    repeat (destruct Hin as [->|Hin];
            [first [ solve [apply (Hside 0); [lia | vm_compute; repeat constructor]]
                   | solve [apply (Hside 1); [lia | vm_compute; repeat constructor]]
                   | solve [apply (Hside 2); [lia | vm_compute; repeat constructor]]
                   | solve [apply (Hside 3); [lia | vm_compute; repeat constructor]] ]
            |]).
    destruct Hin.
  - intros step Hout. unfold getFieldsByStep.
    assert (E : stepsConfig_at step = None).
    { unfold stepsConfig_at, totalSteps in *.
      destruct (0 <=? step) eqn:E; [|reflexivity].
      apply lookup_ge_None. cbn. lia. }
    rewrite E. induction formFields as [|f l IH]; [reflexivity | exact IH].
  - intros step Hin. unfold totalSteps in Hin.
    assert (E : step = 0 ∨ step = 1 ∨ step = 2 ∨ step = 3) by lia.
    destruct E as [-> | [-> | [-> | ->]]]; vm_compute; discriminate.
Qed.

Lemma steps_partition_fields_witness :
  getFieldsByStep 7 = [] ∧ getFieldsByStep (-1) = [].
Proof.
  destruct steps_partition_fields as (_ & Hout & _).
  split; apply Hout; unfold totalSteps; lia.
Defined.

Section WithStringToNumber.

Variable StringToNumber : string → option Z.

(** A field touches its own error only. *)
Lemma validateField_frame d field errs k :
  k ≠ id field →
  validateField StringToNumber d field errs !! k = errs !! k.
Proof.
  intros Hk. unfold validateField.
  set (v := get d (id field)).
  destruct (required field && is_blank v);
    destruct (bool_decide (type field = number) && is_present v);
    destruct (min field) as [lo|]; destruct (max field) as [hi|];
    try destruct (lt (Number StringToNumber v) (Some lo));
    try destruct (lt (Some hi) (Number StringToNumber v));
    destruct ((id field =? "stops")%string && truthy (get d "trips")
              && is_present v);
    try destruct (lt (Number StringToNumber (get d "trips"))
                     (Number StringToNumber v));
    cbn; rewrite ?lookup_insert_ne by (intros E; apply Hk; symmetry; exact E);
    reflexivity.
Qed.

Lemma validateField_own d field errs :
  validateField StringToNumber d field errs !! id field = None
  ↔ errs !! id field = None ∧ fieldValid StringToNumber d field = true.
Proof.
  unfold validateField, fieldValid.
  set (v := get d (id field)).
  destruct (required field && is_blank v);
    destruct (bool_decide (type field = number) && is_present v);
    destruct (min field) as [lo|]; destruct (max field) as [hi|];
    try destruct (lt (Number StringToNumber v) (Some lo));
    try destruct (lt (Some hi) (Number StringToNumber v));
    destruct ((id field =? "stops")%string && truthy (get d "trips")
              && is_present v);
    try destruct (lt (Number StringToNumber (get d "trips"))
                     (Number StringToNumber v));
    cbn; rewrite ?lookup_insert_eq; split;
    first
      [ intros [_ ?]; discriminate
      | intros ?; discriminate
      | intros H; split; [exact H | reflexivity]
      | intros [H _]; exact H ].
Qed.

Lemma foldl_validateField_lookup d fields errs k msg :
  foldl (λ e f, validateField StringToNumber d f e) errs fields !! k = Some msg →
  is_Some (errs !! k) ∨ k ∈ id <$> fields.
Proof.
  revert errs. induction fields as [|f fields IH]; intros errs H; cbn in H.
  - left. eauto.
  - destruct (IH _ H) as [Hs|Hin].
    + destruct (decide (k = id f)) as [->|Hne].
      * right. rewrite fmap_cons. left.
      * rewrite validateField_frame in Hs by exact Hne. left. exact Hs.
    + right. rewrite fmap_cons. right. exact Hin.
Qed.

(** X10. [validateCurrentStep] replaces the stored errors by those of the
    current step: whatever errors were stored before, every field with an
    error afterwards is a field of the current step, the answers and the
    step are untouched, and the result is true exactly when no error is
    recorded. *)
Theorem validation_reports_current_step (st : FormState) :
  (∀ k msg, errors (validateCurrentStep StringToNumber st).2 !! k = Some msg →
     k ∈ id <$> getFieldsByStep (currentStep st))
  ∧ data (validateCurrentStep StringToNumber st).2 = data st
  ∧ currentStep (validateCurrentStep StringToNumber st).2 = currentStep st
  ∧ ((validateCurrentStep StringToNumber st).1 = true
     ↔ errors (validateCurrentStep StringToNumber st).2 = ∅).
Proof.
  split_and!; try reflexivity.
  - intros k msg H. cbn [validateCurrentStep snd errors] in H.
    unfold stepErrors in H.
    apply foldl_validateField_lookup in H as [[m Hm]|Hin]; [|exact Hin].
    rewrite lookup_empty in Hm. discriminate.
  - cbn [validateCurrentStep fst snd errors]. apply bool_decide_eq_true.
Qed.

(** X11. The steps after the first never block: on a step 1, 2 or 3,
    whatever the answers are (none, any value), [validateCurrentStep]
    returns true and records no error, so [handleNext] moves on and
    [handleSubmit] posts. *)
Theorem optional_steps_validate (st : FormState) :
  1 <= currentStep st <= totalSteps - 1 →
  (validateCurrentStep StringToNumber st).1 = true
  ∧ errors (validateCurrentStep StringToNumber st).2 = ∅
  ∧ currentStep (handleNext StringToNumber st)
    = Z.min (currentStep st + 1) (totalSteps - 1)
  ∧ (handleSubmit StringToNumber st).1 = Some (data st).
Proof.
  intros Hstep. unfold totalSteps in Hstep.
  assert (Hok : (validateCurrentStep StringToNumber st).1 = true).
  { apply FormProofs.validateCurrentStep_true.
    assert (E : currentStep st = 1 ∨ currentStep st = 2 ∨ currentStep st = 3)
      by lia.
    destruct E as [-> | [-> | ->]];
      match goal with
      | |- Forall _ (getFieldsByStep ?n) =>
          let l := eval vm_compute in (getFieldsByStep n) in
          change (getFieldsByStep n) with l
      end;
      repeat constructor. }
  split_and!.
  - exact Hok.
  - cbn [validateCurrentStep fst snd errors] in *.
    apply bool_decide_eq_true in Hok. exact Hok.
  - unfold handleNext. destruct (validateCurrentStep StringToNumber st)
      as [ok st1] eqn:E. cbn [fst] in Hok. subst ok. cbn [currentStep].
    pose proof (FormProofs.validateCurrentStep_data StringToNumber st) as [_ Hc].
    rewrite E in Hc. cbn [snd] in Hc. rewrite Hc. reflexivity.
  - unfold handleSubmit. destruct (validateCurrentStep StringToNumber st)
      as [ok st1] eqn:E. cbn [fst] in Hok. subst ok. reflexivity.
Qed.

(** X12. Next and then Previous come back: on a step before the last one
    whose fields validate, [handleNext] followed by [handlePrevious] gives
    the state back with the same answers and the same step, the stored
    errors being cleared. *)
Theorem next_then_previous (st : FormState) :
  0 <= currentStep st < totalSteps - 1 →
  (validateCurrentStep StringToNumber st).1 = true →
  handlePrevious (handleNext StringToNumber st)
  = {| data := data st; errors := ∅;
       isSubmitting := isSubmitting st; currentStep := currentStep st |}.
Proof.
  intros Hstep Hok. unfold totalSteps in Hstep.
  unfold validateCurrentStep in Hok. cbn [fst] in Hok.
  apply bool_decide_eq_true in Hok.
  unfold handleNext, validateCurrentStep. rewrite Hok.
  rewrite bool_decide_eq_true_2 by reflexivity.
  unfold handlePrevious, totalSteps.
  cbn [currentStep data errors isSubmitting]. f_equal. lia.
Qed.

End WithStringToNumber.

Lemma optional_steps_validate_witness :
  (validateCurrentStep (λ _, None)
     {| data := ∅; errors := ∅; isSubmitting := false; currentStep := 2 |}).1
  = true.
Proof.
  apply (optional_steps_validate (λ _, None)
           {| data := ∅; errors := ∅; isSubmitting := false;
              currentStep := 2 |}).
  unfold totalSteps. cbn. lia.
Defined.

Lemma validation_reports_current_step_witness :
  (validateCurrentStep (λ _, None) initialState).1 = false
  ∧ ∀ k msg,
      errors (validateCurrentStep (λ _, None) initialState).2 !! k = Some msg →
      k ∈ id <$> getFieldsByStep 0.
Proof.
  split; [vm_compute; reflexivity|].
  exact (proj1 (validation_reports_current_step (λ _, None) initialState)).
Defined.

Lemma next_then_previous_witness :
  handlePrevious
    (handleNext (λ _, None)
       {| data := ∅; errors := ∅; isSubmitting := false; currentStep := 1 |})
  = {| data := ∅; errors := ∅; isSubmitting := false; currentStep := 1 |}.
Proof.
  apply (next_then_previous (λ _, None)
           {| data := ∅; errors := ∅; isSubmitting := false;
              currentStep := 1 |}).
  - unfold totalSteps. cbn. lia.
  - vm_compute. reflexivity.
Defined.

End FormExtras.

(** ** The errors of the first step *)

Module FirstStepExtras.
Import FormConfig SubmissionForm Spec.

Section WithStringToNumber.

Variable StringToNumber : string → option Z.

Lemma validateField_exceeds d field errs :
  (id field =? "stops")%string && truthy (get d "trips")
    && is_present (get d (id field)) = true →
  lt (Number StringToNumber (get d "trips"))
     (Number StringToNumber (get d (id field))) = true →
  validateField StringToNumber d field errs !! id field
  = Some "Stops cannot exceed total trips".
Proof.
  intros H1 H2. unfold validateField.
  set (v := get d (id field)) in *.
  rewrite H1, H2. apply lookup_insert_eq.
Qed.

(** X13. The errors of the first step, field by field. [trips] gets no
    error exactly when it is a number from 1 to 200. [stops] gets no error
    exactly when it is a number that is not negative and, when [trips] is a
    number other than 0, does not exceed it: with [trips] empty or 0 the
    comparison is skipped. When stops exceed a non-zero trips the message
    kept is "Stops cannot exceed total trips". *)
Theorem first_step_errors (st : FormState) (t s : option Z) :
  currentStep st = 0 →
  get (data st) "trips" = number_or_null t →
  get (data st) "stops" = number_or_null s →
  (errors (validateCurrentStep StringToNumber st).2 !! "trips" = None
   ↔ ∃ a, t = Some a ∧ 1 <= a <= 200)
  ∧ (errors (validateCurrentStep StringToNumber st).2 !! "stops" = None
     ↔ ∃ b, s = Some b ∧ 0 <= b ∧ ∀ a, t = Some a → a ≠ 0 → b <= a)
  ∧ (∀ a b, t = Some a → s = Some b → a ≠ 0 → a < b →
       errors (validateCurrentStep StringToNumber st).2 !! "stops"
       = Some "Stops cannot exceed total trips").
Proof.
  intros Hstep Ht Hs.
  cbn [validateCurrentStep snd errors]. unfold stepErrors. rewrite Hstep.
  let l := eval vm_compute in (getFieldsByStep 0) in
  change (getFieldsByStep 0) with l.
  cbn [foldl].
  match goal with
  | |- context [validateField _ _ ?f (validateField _ _ ?g ∅)] =>
      set (stopsField := f); set (tripsField := g)
  end.
  assert (Hvt : fieldValid StringToNumber (data st) tripsField = true
                ↔ ∃ a, t = Some a ∧ 1 <= a <= 200).
  { unfold fieldValid, tripsField.
    cbn [id label type required min max options description].
    rewrite Ht, bool_decide_eq_true_2 by reflexivity.
    destruct t as [a|]; cbn.
    - destruct (a <? 1) eqn:E1, (200 <? a) eqn:E2; cbn;
        (split; [intros H; try discriminate; exists a; split;
                 (reflexivity || lia)
                |intros (? & [= <-] & ?); try reflexivity; exfalso; lia]).
    - split; [discriminate | intros (? & [=] & _)]. }
  assert (Hvs : fieldValid StringToNumber (data st) stopsField = true
                ↔ ∃ b, s = Some b ∧ 0 <= b ∧ ∀ a, t = Some a → a ≠ 0 → b <= a).
  { unfold fieldValid, stopsField.
    cbn [id label type required min max options description].
    rewrite Ht, Hs, bool_decide_eq_true_2 by reflexivity.
    destruct s as [b|]; cbn.
    - destruct t as [a|]; cbn.
      + destruct (b <? 0) eqn:E1, (a =? 0) eqn:E2, (a <? b) eqn:E3; cbn;
          (split;
           [intros H; try discriminate; exists b;
            split; try reflexivity; split; try lia;
            intros ? [= <-] ?; lia
           |intros (? & [= <-] & ? & Hle); try reflexivity; exfalso;
            first [lia | specialize (Hle a eq_refl); lia]]).
      + destruct (b <? 0) eqn:E1; cbn;
          (split;
           [intros H; try discriminate; exists b;
            split; try reflexivity; split; try lia; intros ? [=]
           |intros (? & [= <-] & ? & _); try reflexivity; exfalso; lia]).
    - split; [discriminate | intros (? & [=] & _)]. }
  split_and!.
  - rewrite (FormExtras.validateField_frame StringToNumber _ stopsField)
      by discriminate.
    change "trips" with (id tripsField) at 1.
    rewrite FormExtras.validateField_own, lookup_empty, Hvt. tauto.
  - change "stops" with (id stopsField) at 1.
    rewrite FormExtras.validateField_own.
    rewrite (FormExtras.validateField_frame StringToNumber _ tripsField)
      by discriminate.
    rewrite lookup_empty, Hvs. tauto.
  - intros a b -> -> Ha Hab.
    change "stops" with (id stopsField) at 1.
    apply validateField_exceeds.
    + unfold stopsField. cbn [id]. rewrite Ht, Hs. cbn.
      destruct (a =? 0) eqn:E; [lia | reflexivity].
    + unfold stopsField. cbn [id]. rewrite Ht, Hs. cbn. lia.
Qed.

End WithStringToNumber.

Lemma first_step_errors_witness :
  errors (validateCurrentStep (λ _, None) initialState).2 !! "stops" = None
  ∧ errors (validateCurrentStep (λ _, None) initialState).2 !! "trips" ≠ None.
Proof.
  destruct (first_step_errors (λ _, None) initialState (Some 0) (Some 0)
              eq_refl eq_refl eq_refl) as (Htrips & Hstops & _).
  split.
  - apply Hstops. exists 0. split; [reflexivity|]. split; [lia|].
    intros a [= <-] Hne. lia.
  - intros H. apply Htrips in H as (a & [= <-] & Ha). lia.
Defined.

End FirstStepExtras.

(** ** The one-question-at-a-time form *)

Module GamifiedExtras.
Import FormConfig SubmissionForm GamifiedForm.

(** The question of each step. *)
Lemma currentQuestion_cases (st : FormState) (q : FormField) :
  currentQuestion st = Some q →
  (currentStep st = 0 ∧ id q = "trips" ∧ type q = number)
  ∨ (currentStep st = 1 ∧ id q = "stops" ∧ type q = number)
  ∨ (2 <= currentStep st <= 8 ∧ id q ≠ "trips" ∧ id q ≠ "stops"
     ∧ type q ≠ number).
Proof.
  unfold currentQuestion. destruct (0 <=? currentStep st) eqn:E; [|discriminate].
  apply Z.leb_le in E.
  destruct (Z.to_nat (currentStep st)) as [|[|[|[|[|[|[|[|[|n]]]]]]]]] eqn:En;
    cbn; intros [= <-];
    [left | right; left | right; right ..];
    cbn; split_and!; try reflexivity; try discriminate; lia.
Qed.

Lemma tripsAnswers_values (a : answer) :
  a ∈ tripsAnswers →
  ∃ t, answer_value a = number_value t ∧ t ∈ [3; 8; 15; 35; 75].
Proof.
  unfold tripsAnswers. rewrite !elem_of_cons, elem_of_nil.
  intros [-> | [-> | [-> | [-> | [-> | []]]]]]; cbn;
    eexists; (split; [reflexivity|]); rewrite !elem_of_cons; auto 10.
Qed.

Section WithStringToNumber.

Variable StringToNumber : string → option Z.

Lemma maxStops_number (d : gmap string value) (t : Z) :
  d !! "trips" = Some (number_value t) →
  maxStops StringToNumber d = Some (Z.min (if t =? 0 then 10 else t) 20).
Proof.
  intros H. unfold maxStops, get. rewrite H. cbn.
  destruct (t =? 0); reflexivity.
Qed.

Lemma stopsAnswers_values (d : gmap string value) (a : answer) :
  a ∈ stopsAnswers StringToNumber d →
  ∃ m i, maxStops StringToNumber d = Some m
         ∧ answer_value a = number_value i ∧ 0 <= i <= m.
Proof.
  unfold stopsAnswers. destruct (maxStops StringToNumber d) as [m|].
  - intros (i & -> & Hi)%list_elem_of_fmap. apply elem_of_seqZ in Hi.
    exists m, i. split_and!; try reflexivity; lia.
  - intros H. apply elem_of_nil in H. destruct H.
Qed.

Lemma counts_bounded_answer (clicked st : FormState) question a :
  counts_bounded clicked → counts_bounded st →
  currentQuestion clicked = Some question →
  a ∈ getOptionsForQuestion StringToNumber (data clicked) question →
  counts_bounded (handleAnswer question (answer_value a) st).
Proof.
  intros (_ & tc & sc & Htc & Hsc & Htc' & Hsc')
         (Hstep & t & s & Ht & Hs & Ht' & Hs') Hq Ha.
  unfold counts_bounded, handleAnswer. cbn [data currentStep].
  split; [lia|].
  apply currentQuestion_cases in Hq
    as [(_ & Hid & Hty) | [(_ & Hid & Hty) | (_ & Hn1 & Hn2 & _)]].
  - unfold getOptionsForQuestion in Ha. rewrite Hid, Hty in Ha.
    rewrite bool_decide_eq_true_2 in Ha by reflexivity. cbn in Ha.
    apply tripsAnswers_values in Ha as (t' & -> & Hin).
    exists t', s. rewrite Hid, lookup_insert_eq, lookup_insert_ne by discriminate.
    split_and!; try reflexivity; try assumption; try lia.
    rewrite !elem_of_cons in *. tauto.
  - unfold getOptionsForQuestion in Ha. rewrite Hid, Hty in Ha.
    rewrite bool_decide_eq_true_2 in Ha by reflexivity. cbn in Ha.
    apply stopsAnswers_values in Ha as (m & i & Hm & -> & Hi).
    rewrite (maxStops_number _ _ Htc) in Hm. injection Hm as <-.
    exists t, i. rewrite Hid, lookup_insert_eq, lookup_insert_ne by discriminate.
    split_and!; try reflexivity; try assumption; lia.
  - exists t, s. rewrite !lookup_insert_ne by assumption.
    split_and!; try assumption; lia.
Qed.

Lemma reachable_counts_bounded (st : FormState) :
  reachable StringToNumber st → counts_bounded st.
Proof.
  induction 1 as [|clicked st question a _ IHc _ IHs _ Hq Ha
                  |st _ IH|st b _ IH|st _ _].
  - split; [cbn; lia|]. exists 0, 0. split_and!; try reflexivity; try lia.
    rewrite !elem_of_cons. auto.
  - exact (counts_bounded_answer clicked st question a IHc IHs Hq Ha).
  - unfold handlePrevious. destruct (0 <? currentStep st) eqn:E; [|exact IH].
    apply Z.ltb_lt in E. destruct IH as [_ IH]. split; [cbn; lia | exact IH].
  - exact IH.
  - split; [cbn; lia|]. exists 0, 0. split_and!; try reflexivity; try lia.
    rewrite !elem_of_cons. auto.
Qed.

Lemma reachable_in_turn_reachable (st : FormState) :
  reachable_in_turn StringToNumber st → reachable StringToNumber st.
Proof.
  induction 1; eauto using reachable.
Qed.

(** X14. Whatever is clicked and whenever, also when answers land out of
    turn (a click registers 200 ms before its [handleAnswer] runs), the
    form holds a trips count that is 0 or one of the five quick answers 3,
    8, 15, 35, 75, and a stops count from 0 to 20, both numbers, never
    [null]; and the step never goes below 0. *)
Theorem gamified_counts_bounded (st : FormState) :
  reachable StringToNumber st →
  0 <= currentStep st
  ∧ ∃ t s, data st !! "trips" = Some (number_value t)
           ∧ data st !! "stops" = Some (number_value s)
           ∧ t ∈ [0; 3; 8; 15; 35; 75] ∧ 0 <= s <= 20.
Proof. exact (reachable_counts_bounded st). Qed.

(** X15. The nine questions are the nine fields of [formFields], each
    asked at exactly one step: while the form is not complete the current
    question is defined and is a field of [formFields], a defined question
    means a step from 0 that is not complete, and every field is the
    question of one step and no other. *)
Theorem every_field_asked_once :
  (∀ st, 0 <= currentStep st → isComplete st = false →
     ∃ q, currentQuestion st = Some q ∧ q ∈ formFields)
  ∧ (∀ st q, currentQuestion st = Some q →
       0 <= currentStep st ∧ isComplete st = false)
  ∧ (∀ field, field ∈ formFields →
       ∃ step, ∀ st, currentQuestion st = Some field ↔ currentStep st = step).
Proof.
  assert (Hq : ∀ st q, currentQuestion st = Some q →
            ∃ n, currentStep st = Z.of_nat n
                 ∧ gamifiedQuestions !! n = Some (Some q)).
  { intros st q. unfold currentQuestion.
    destruct (0 <=? currentStep st) eqn:E; [|discriminate].
    apply Z.leb_le in E.
    destruct (gamifiedQuestions !! Z.to_nat (currentStep st)) as [[q'|]|] eqn:El;
      cbn; intros [= ->].
    exists (Z.to_nat (currentStep st)). split; [lia | exact El]. }
  split_and!.
  - intros st Hstep Hc. unfold isComplete in Hc. apply Z.leb_gt in Hc.
    cbn in Hc. unfold currentQuestion.
    rewrite (proj2 (Z.leb_le 0 (currentStep st)) Hstep).
    destruct (Z.to_nat (currentStep st)) as [|[|[|[|[|[|[|[|[|n]]]]]]]]] eqn:En;
      try lia; cbn; eexists; (split; [reflexivity|]);
      unfold formFields; repeat constructor.
  - intros st q H. apply Hq in H as (n & Hn & Hl).
    apply lookup_lt_Some in Hl. cbn in Hl.
    unfold isComplete. cbn. split; [lia|]. apply Z.leb_gt. lia.
  - intros field Hin. unfold formFields in Hin.
    rewrite !elem_of_cons, elem_of_nil in Hin.
    assert (Hback : ∀ (k : nat) st,
              gamifiedQuestions !! k = Some (Some field) →
              currentStep st = Z.of_nat k → currentQuestion st = Some field).
    { intros k st Hl Hk. unfold currentQuestion. rewrite Hk.
      rewrite (proj2 (Z.leb_le 0 (Z.of_nat k))) by lia.
      rewrite Nat2Z.id, Hl. reflexivity. }
    assert (Honce : ∀ k : nat,
              gamifiedQuestions !! k = Some (Some field) →
              (∀ n, gamifiedQuestions !! n = Some (Some field) → n = k) →
              ∃ step, ∀ st, currentQuestion st = Some field
                            ↔ currentStep st = step).
    { intros k Hl Hu. exists (Z.of_nat k). intros st. split.
      - intros H. apply Hq in H as (n & Hn & Hl'). rewrite Hn.
        f_equal. apply Hu. exact Hl'.
      - apply Hback. exact Hl. }
    assert (Hnat : ∀ k : nat, (k < 9)%nat →
              k = 0%nat ∨ k = 1%nat ∨ k = 2%nat ∨ k = 3%nat ∨ k = 4%nat
              ∨ k = 5%nat ∨ k = 6%nat ∨ k = 7%nat ∨ k = 8%nat) by lia.
    repeat (destruct Hin as [-> | Hin];
            [ let asked k :=
                solve [ apply (Honce k);
                        [ reflexivity
                        | intros n Hn; pose proof (lookup_lt_Some _ _ _ Hn) as Hlt;
                          apply Hnat in Hlt;
                          destruct Hlt as [-> | [-> | [-> | [-> | [-> | [-> | [->
                                           | [-> | ->]]]]]]]];
                          first [reflexivity | discriminate Hn] ] ] in
              first [ asked 0%nat | asked 1%nat | asked 2%nat | asked 3%nat
                    | asked 4%nat | asked 5%nat | asked 6%nat | asked 7%nat
                    | asked 8%nat ]
            |]).
    destruct Hin.
Qed.

Lemma reachable_in_turn_counts (st : FormState) :
  reachable_in_turn StringToNumber st → counts_in_turn st.
Proof.
  induction 1 as [|st question a Hr IH Hc Hq Ha|st Hr IH Hc|st b Hr IH|st Hr IH].
  - split; [cbn; lia|]. exists 0, 0. cbn.
    split_and!; try reflexivity; lia.
  - destruct IH as (Hstep & t & s & Ht & Hs & Ht' & Hs' & H1 & H2).
    unfold counts_in_turn, handleAnswer. cbn [data currentStep].
    split; [lia|].
    pose proof Hq as Hq'.
    apply currentQuestion_cases in Hq
      as [(Hst & Hid & Hty) | [(Hst & Hid & Hty) | (Hst & Hn1 & Hn2 & _)]].
    + unfold getOptionsForQuestion in Ha. rewrite Hid, Hty in Ha.
      rewrite bool_decide_eq_true_2 in Ha by reflexivity. cbn in Ha.
      apply tripsAnswers_values in Ha as (t' & -> & Hin).
      exists t', s.
      rewrite Hid, lookup_insert_eq, lookup_insert_ne by discriminate.
      rewrite !elem_of_cons, elem_of_nil in Hin.
      split_and!; try reflexivity; try assumption; lia.
    + unfold getOptionsForQuestion in Ha. rewrite Hid, Hty in Ha.
      rewrite bool_decide_eq_true_2 in Ha by reflexivity. cbn in Ha.
      apply stopsAnswers_values in Ha as (m & i & Hm & -> & Hi).
      rewrite (maxStops_number _ _ Ht) in Hm. injection Hm as <-.
      exists t, i.
      rewrite Hid, lookup_insert_eq, lookup_insert_ne by discriminate.
      assert (3 <= t) by (apply H1; lia).
      destruct (t =? 0) eqn:E; [lia|].
      split_and!; try reflexivity; try assumption; lia.
    + exists t, s.
      rewrite !lookup_insert_ne by assumption.
      split_and!; try assumption; intros; lia.
  - destruct IH as (Hstep & t & s & Ht & Hs & Ht' & Hs' & H1 & H2).
    unfold handlePrevious. destruct (0 <? currentStep st) eqn:E.
    + apply Z.ltb_lt in E. split; [cbn; lia|]. exists t, s. cbn [data currentStep].
      split_and!; try assumption; intros; lia.
    + split; [exact Hstep|]. exists t, s. split_and!; try assumption; lia.
  - exact IH.
  - split; [cbn; lia|]. exists 0, 0. cbn.
    split_and!; try reflexivity; lia.
Qed.

(** X16. When the answers land in turn, the body the form posts on
    completion carries numbers for trips and stops that satisfy the
    constraints of [submissions]: trips from 1 to 200 and stops from 0 to
    trips. *)
Theorem answers_in_turn_fit_table (st : FormState) :
  reachable_in_turn StringToNumber st →
  isComplete st = true →
  ∃ t s, data st !! "trips" = Some (number_value t)
         ∧ data st !! "stops" = Some (number_value s)
         ∧ Schema.trips_stops_constraints (Some t) (Some s) = true.
Proof.
  intros Hr Hc. apply reachable_in_turn_counts in Hr
    as (_ & t & s & Ht & Hs & Ht' & Hs' & H1 & H2).
  unfold isComplete in Hc. cbn in Hc. apply Z.leb_le in Hc.
  exists t, s. split_and!; try assumption.
  assert (3 <= t) by (apply H1; lia). assert (s <= t) by (apply H2; lia).
  unfold Schema.trips_stops_constraints. cbn.
  repeat match goal with
         | |- context [?a <=? ?b] =>
             rewrite (proj2 (Z.leb_le a b)) by lia
         | |- context [?a >=? ?b] =>
             rewrite (proj2 (Z.geb_le a b)) by lia
         end.
  reflexivity.
Qed.

Lemma answer_first_in_turn (n : nat) (st : FormState) :
  reachable_in_turn StringToNumber st →
  reachable_in_turn StringToNumber (answer_first StringToNumber n st).
Proof.
  revert st. induction n as [|n IH]; intros st Hr; [exact Hr|].
  cbn [answer_first].
  destruct (currentQuestion st) as [question|] eqn:Hq; [|exact Hr].
  destruct (getOptionsForQuestion StringToNumber (data st) question)
    as [|a l] eqn:Ho; [exact Hr|].
  apply IH. apply turn_answer; [exact Hr | | exact Hq |].
  - apply currentQuestion_cases in Hq
      as [(H & _) | [(H & _) | ((H & H') & _)]];
      unfold isComplete; cbn; apply Z.leb_gt; lia.
  - rewrite Ho. left.
Qed.

End WithStringToNumber.

(** Out of turn the stops can exceed the trips: with 75 trips answered,
    "20 times" is clicked, then Previous, then "1-5 trips", all before the
    first of the two answers lands. *)
Lemma stops_exceed_trips_out_of_turn :
  ∃ st, reachable (λ _, None) st
        ∧ currentStep st = 2
        ∧ data st !! "trips" = Some (number_value 3)
        ∧ data st !! "stops" = Some (number_value 20).
Proof.
  destruct (findField "trips") as [tripsQ|] eqn:Et; [|discriminate Et].
  destruct (findField "stops") as [stopsQ|] eqn:Es; [|discriminate Es].
  injection Et as Et. injection Es as Es.
  set (s1 := handleAnswer tripsQ (number_value 75) initialState).
  set (s2 := GamifiedForm.handlePrevious s1).
  set (s3 := handleAnswer stopsQ (number_value 20) s2).
  exists (handleAnswer tripsQ (number_value 3) s3).
  assert (H1 : reachable (λ _, None) s1).
  { apply (reach_answer _ initialState initialState tripsQ
             {| answer_label := "50+ trips"; answer_value := number_value 75 |});
      try apply reach_initial; subst tripsQ; try reflexivity.
    vm_compute. repeat constructor. }
  assert (H2 : reachable (λ _, None) s2) by (apply reach_previous; exact H1).
  assert (H3 : reachable (λ _, None) s3).
  { apply (reach_answer _ s1 s2 stopsQ
             {| answer_label := "20 times"; answer_value := number_value 20 |});
      try assumption; subst s1 tripsQ stopsQ; try reflexivity.
    vm_compute. repeat constructor. }
  split_and!.
  - apply (reach_answer _ s2 s3 tripsQ
             {| answer_label := "1-5 trips"; answer_value := number_value 3 |});
      try assumption; subst s2 s1 tripsQ; try reflexivity.
    vm_compute. repeat constructor.
  - subst s3 s2 s1 tripsQ stopsQ. reflexivity.
  - subst s3 s2 s1 tripsQ stopsQ. reflexivity.
  - subst s3 s2 s1 tripsQ stopsQ. reflexivity.
Qed.

Lemma every_field_asked_once_witness :
  ∃ q, currentQuestion initialState = Some q ∧ q ∈ formFields.
Proof.
  apply (proj1 every_field_asked_once initialState).
  - cbn. lia.
  - reflexivity.
Defined.

Lemma answers_in_turn_fit_table_witness :
  ∃ t s,
    data (answer_first (λ _, None) 9 initialState) !! "trips"
    = Some (number_value t)
    ∧ data (answer_first (λ _, None) 9 initialState) !! "stops"
      = Some (number_value s)
    ∧ Schema.trips_stops_constraints (Some t) (Some s) = true.
Proof.
  apply (answers_in_turn_fit_table (λ _, None)
           (answer_first (λ _, None) 9 initialState)).
  - apply answer_first_in_turn. apply turn_initial.
  - vm_compute. reflexivity.
Defined.

Lemma gamified_counts_bounded_witness :
  ∃ t s,
    data (handleAnswer
            {| id := "trips"; label := "Total trips in last 30 days";
               type := number; options := []; required := true;
               min := Some 1; max := Some 200;
               description := "How many times did you use public transport in Melbourne in the last 30 days?" |}
            (number_value 8) initialState) !! "trips"
    = Some (number_value t)
    ∧ data (handleAnswer
              {| id := "trips"; label := "Total trips in last 30 days";
                 type := number; options := []; required := true;
                 min := Some 1; max := Some 200;
                 description := "How many times did you use public transport in Melbourne in the last 30 days?" |}
              (number_value 8) initialState) !! "stops"
      = Some (number_value s)
    ∧ t ∈ [0; 3; 8; 15; 35; 75] ∧ 0 <= s <= 20.
Proof.
  refine (proj2 (gamified_counts_bounded (λ _, None) _ _)).
  apply (reach_answer _ initialState initialState _
           {| answer_label := "6-10 trips"; answer_value := number_value 8 |}).
  - apply reach_initial.
  - apply reach_initial.
  - reflexivity.
  - reflexivity.
  - vm_compute. repeat constructor.
Defined.

End GamifiedExtras.

(** ** The submit route, and the answers the forms offer *)

Module RouteExtras.
Import SubmitRoute.

Lemma sanitizeField_idempotent (kv : string * json) :
  sanitizeField (sanitizeField kv) = sanitizeField kv.
Proof.
  destruct kv as [k v]. unfold sanitizeField. cbn [fst snd].
  destruct (is_PreferNot v) eqn:E; cbn [fst snd]; [reflexivity|].
  rewrite E. reflexivity.
Qed.

Lemma sanitizeField_fixed (kv : string * json) :
  sanitizeField kv = kv ↔ kv.2 ≠ JString "PreferNot".
Proof.
  destruct kv as [k v]. unfold sanitizeField. cbn [fst snd].
  destruct (is_PreferNot v) eqn:E.
  - apply RouteProofs.is_PreferNot_spec in E. subst v.
    split; [discriminate | intros H; contradiction].
  - split; [|reflexivity]. intros _ ->. discriminate E.
Qed.

(** X17. Sanitizing twice is sanitizing once, and the bodies the route
    forwards as they are, are exactly the objects with no top-level
    property of value ['PreferNot']: an array, a string or a number is
    never forwarded unchanged, it becomes an object. *)
Theorem sanitizedBody_fixed_points (body : json) :
  sanitizedBody (sanitizedBody body) = sanitizedBody body
  ∧ (sanitizedBody body = body
     ↔ ∃ fields, body = JObject fields
                 ∧ ∀ k, (k, JString "PreferNot") ∉ fields).
Proof.
  split.
  - unfold sanitizedBody. cbn [spread]. f_equal.
    rewrite <- list_fmap_compose. apply list_fmap_ext.
    intros i kv _. apply sanitizeField_idempotent.
  - split.
    + intros H. exists (sanitizeField <$> spread body).
      split; [symmetry; exact H|].
      intros k (kv & Heq & _)%list_elem_of_fmap.
      pose proof (RouteProofs.sanitizeField_value kv) as Hv.
      rewrite <- Heq in Hv. discriminate Hv.
    + intros (fields & -> & Hno). unfold sanitizedBody. cbn [spread]. f_equal.
      rewrite <- (list_fmap_id fields) at 2. apply list_fmap_ext.
      intros i [k v] Hi. change (sanitizeField (k, v) = (k, v)).
      apply sanitizeField_fixed. cbn [snd]. intros ->.
      apply (Hno k). eapply list_elem_of_lookup_2. exact Hi.
Qed.

End RouteExtras.

Module OptionExtras.
Import FormConfig SubmissionForm GamifiedForm SubmitRoute Wire.

Ltac fits :=
  cbn;
  first [ left; reflexivity
        | right; eexists; split; [reflexivity | repeat constructor] ].

(** X18. Every answer a select field offers, in [GamifiedForm] and in
    the inputs of the multi-step form, reaches the backend as [null] or as
    a label of the enumerated type of the column of [submissions] with the
    field's name, once the route has sanitized it. *)
Theorem offered_options_fit_columns (StringToNumber : string → option Z)
    (field : FormField) :
  field ∈ formFields → type field = select →
  ∃ labels,
    Database.column_labels (id field) = Some labels
    ∧ (∀ d a, a ∈ getOptionsForQuestion StringToNumber d field →
         ∃ j, stringify (answer_value a) = Some j
              ∧ ((sanitizeField (id field, j)).2 = JNull
                 ∨ ∃ l, (sanitizeField (id field, j)).2 = JString l
                        ∧ l ∈ labels))
    ∧ (∀ v, input_value field v →
         ∃ j, stringify v = Some j
              ∧ ((sanitizeField (id field, j)).2 = JNull
                 ∨ ∃ l, (sanitizeField (id field, j)).2 = JString l
                        ∧ l ∈ labels)).
Proof.
  intros Hin Hty. unfold formFields in Hin.
  rewrite !elem_of_cons, elem_of_nil in Hin.
  repeat (destruct Hin as [-> | Hin]; [try discriminate Hty|]);
    try (destruct Hin);
    (eexists; split; [reflexivity|]; split;
     [ intros d a Ha;
       match type of Ha with
       | _ ∈ ?l => let l' := eval vm_compute in l in change l with l' in Ha
       end;
       rewrite !elem_of_cons, elem_of_nil in Ha;
       repeat (destruct Ha as [-> | Ha]; [eexists; split; [reflexivity|]; fits|]);
       destruct Ha
     | intros v Hv; unfold input_value in Hv; cbn in Hv;
       destruct Hv as [-> | (s & -> & Hs)];
       [ eexists; split; [reflexivity|]; fits |];
       rewrite !elem_of_cons, elem_of_nil in Hs;
       repeat (destruct Hs as [-> | Hs]; [eexists; split; [reflexivity|]; fits|]);
       destruct Hs ]).
Qed.

Lemma offered_options_fit_columns_witness :
  ∃ labels,
    Database.column_labels "height_bracket" = Some labels
    ∧ ∃ j, stringify (string_value "PreferNot") = Some j
           ∧ ((sanitizeField ("height_bracket", j)).2 = JNull
              ∨ ∃ l, (sanitizeField ("height_bracket", j)).2 = JString l
                     ∧ l ∈ labels).
Proof.
  destruct (offered_options_fit_columns (λ _, None)
              {| id := "height_bracket"; label := "Height"; type := select;
                 options := [("<160", "Under 160cm"); ("160-175", "160-175cm");
                             ("175-190", "175-190cm"); (">190", "Over 190cm");
                             ("PreferNot", "Prefer not to say")];
                 required := false; min := None; max := None;
                 description := "Your height range (optional)" |})
    as (labels & Hl & _ & Hinput).
  - unfold formFields. repeat constructor.
  - reflexivity.
  - exists labels. split; [exact Hl|].
    apply (Hinput (string_value "PreferNot")).
    right. exists "PreferNot". split; [reflexivity|].
    cbn. repeat constructor.
Defined.

End OptionExtras.
